(** * legacyinstall: a verified model of the Modrinth modpack installer

    Shallow embedding of [legacyinstall.py].  The script is a straight-line
    pipeline [loadModpack] → [getMods] → [downloadMods] → [copyOverrides]
    over the file system, the network and standard output.  The file
    system is modelled as a directory tree, the run as a state-and-error
    computation over a [World] (file system plus the log of observable
    events), and the Python standard library functions the script calls are
    either modelled here ([hashlib.sha1], [urllib.parse.urlparse],
    [pathlib], [shutil]) or taken from a [Platform] record
    ([zipfile], [json], [urllib.request], and the files the operating
    system refuses to write). *)

From Stdlib Require Import ZArith List Bool Lia.
From Stdlib.Strings Require Import String Ascii Byte.
From stdpp Require Import gmap strings.
Import ListNotations.
Local Open Scope string_scope.
Local Open Scope list_scope.

(** ** Byte strings and text *)

Abbreviation bytes := (list Byte.byte).

Module Str.

Definition code (c : ascii) : N := N_of_ascii c.

Definition chars (s : string) : list ascii := list_ascii_of_string s.
Definition of_chars (l : list ascii) : string := string_of_list_ascii l.

(** [c in s] for a one-character [c]. *)
Definition mem (c : ascii) (s : string) : bool :=
  existsb (Ascii.eqb c) (chars s).

(** [str.find(c)]: index of the first occurrence, [None] for -1. *)
Fixpoint find (c : ascii) (s : string) : option nat :=
  match s with
  | EmptyString => None
  | String a s' =>
      if Ascii.eqb a c then Some 0
      else match find c s' with Some i => Some (S i) | None => None end
  end.

(** [s[:n]] and [s[n:]]. *)
Fixpoint take (n : nat) (s : string) : string :=
  match n, s with
  | S n', String a s' => String a (take n' s')
  | _, _ => EmptyString
  end.

Fixpoint drop (n : nat) (s : string) : string :=
  match n, s with
  | S n', String _ s' => drop n' s'
  | _, _ => s
  end.

(** [s.replace(c, '')] for a one-character [c]. *)
Fixpoint remove (c : ascii) (s : string) : string :=
  match s with
  | EmptyString => EmptyString
  | String a s' => if Ascii.eqb a c then remove c s' else String a (remove c s')
  end.

(** [s.lstrip(cs)] with the stripped characters given as a predicate. *)
Fixpoint lstrip (p : ascii -> bool) (s : string) : string :=
  match s with
  | EmptyString => EmptyString
  | String a s' => if p a then lstrip p s' else s
  end.

Definition rev (s : string) : string := of_chars (List.rev (chars s)).

Definition rstrip (p : ascii -> bool) (s : string) : string :=
  rev (lstrip p (rev s)).

Definition is_upper (c : ascii) : bool := ((65 <=? code c) && (code c <=? 90))%N.
Definition is_lower (c : ascii) : bool := ((97 <=? code c) && (code c <=? 122))%N.
Definition is_digit (c : ascii) : bool := ((48 <=? code c) && (code c <=? 57))%N.
Definition is_ascii (c : ascii) : bool := (code c <? 128)%N.

Definition lower_char (c : ascii) : ascii :=
  if is_upper c then ascii_of_N (code c + 32) else c.

(** [s.lower()], on the ASCII letters. *)
Fixpoint lower (s : string) : string :=
  match s with
  | EmptyString => EmptyString
  | String a s' => String (lower_char a) (lower s')
  end.

(** [s.split(sep)] for a one-character separator. *)
Fixpoint split_aux (sep : ascii) (cur : list ascii) (s : string) : list string :=
  match s with
  | EmptyString => [of_chars (List.rev cur)]
  | String a s' =>
      if Ascii.eqb a sep then of_chars (List.rev cur) :: split_aux sep [] s'
      else split_aux sep (a :: cur) s'
  end.

Definition split (sep : ascii) (s : string) : list string := split_aux sep [] s.

(** [s.partition(c)]: text before the first [c], whether [c] was found,
    text after it. *)
Definition partition (c : ascii) (s : string) : string * bool * string :=
  match find c s with
  | Some i => (take i s, true, drop (S i) s)
  | None => (s, false, EmptyString)
  end.

(** [s.rpartition(c)]: as [partition] from the right; when [c] is absent
    the whole text is the third component. *)
Definition rpartition (c : ascii) (s : string) : string * bool * string :=
  match find c (rev s) with
  | Some i =>
      let n := String.length s in
      (take (n - S i) s, true, drop (n - i) s)
  | None => (EmptyString, false, s)
  end.

(** [s.rfind(c)]. *)
Definition rfind (c : ascii) (s : string) : option nat :=
  match find c (rev s) with
  | Some i => Some (String.length s - S i)
  | None => None
  end.

End Str.

(** ** SHA-1 ([hashlib.sha1(data).hexdigest()])

    FIPS 180-4 over 32-bit words held in [Z]. *)

Module SHA1.
Local Open Scope Z_scope.

Definition wrap (x : Z) : Z := x mod 2 ^ 32.
Definition add32 (x y : Z) : Z := wrap (x + y).
Definition rotl (n x : Z) : Z :=
  Z.lor (wrap (Z.shiftl x n)) (Z.shiftr x (32 - n)).
Definition not32 (x : Z) : Z := Z.lxor x 4294967295.

Definition byteZ (b : Byte.byte) : Z := Z.of_N (Byte.to_N b).

(** Big-endian encoding of [x] on [n] bytes. *)
Fixpoint be_bytes (n : nat) (x : Z) : list Z :=
  match n with
  | O => []
  | S n' => (Z.shiftr x (8 * Z.of_nat n')) mod 256 :: be_bytes n' x
  end.

(** Message padding: a 1 bit, zeros up to 56 mod 64, the bit length on
    64 bits. *)
Definition pad (msg : list Z) : list Z :=
  let len := Z.of_nat (List.length msg) in
  let zeros := Z.to_nat ((55 - len) mod 64) in
  msg ++ 128 :: List.repeat 0 zeros ++ be_bytes 8 (8 * len).

Fixpoint words (fuel : nat) (l : list Z) : list Z :=
  match fuel, l with
  | S f, a :: b :: c :: d :: rest =>
      (a * 16777216 + b * 65536 + c * 256 + d) :: words f rest
  | _, _ => []
  end.

Fixpoint blocks (fuel : nat) (ws : list Z) : list (list Z) :=
  match fuel, ws with
  | S f, _ :: _ => firstn 16 ws :: blocks f (skipn 16 ws)
  | _, _ => []
  end.

Definition State := (Z * Z * Z * Z * Z)%type.

Definition init : State :=
  (1732584193, 4023233417, 2562383102, 271733878, 3285377520).

Definition f (t : nat) (b c d : Z) : Z :=
  if (t <? 20)%nat then Z.lor (Z.land b c) (Z.land (not32 b) d)
  else if (t <? 40)%nat then Z.lxor (Z.lxor b c) d
  else if (t <? 60)%nat then
    Z.lor (Z.lor (Z.land b c) (Z.land b d)) (Z.land c d)
  else Z.lxor (Z.lxor b c) d.

Definition k (t : nat) : Z :=
  if (t <? 20)%nat then 1518500249
  else if (t <? 40)%nat then 1859775393
  else if (t <? 60)%nat then 2400959708
  else 3395469782.

(** The message schedule is kept as a window of the last sixteen words:
    [w[t]] is its head, and [w[t+16]] is appended. *)
Definition next_word (win : list Z) : Z :=
  rotl 1 (Z.lxor (Z.lxor (Z.lxor (nth 13 win 0) (nth 8 win 0)) (nth 2 win 0))
                 (nth 0 win 0)).

Fixpoint rounds (n : nat) (t : nat) (win : list Z) (s : State) : State :=
  match n with
  | O => s
  | S n' =>
      let '(a, b, c, d, e) := s in
      let wt := nth 0 win 0 in
      let temp := add32 (add32 (add32 (add32 (rotl 5 a) (f t b c d)) e) (k t)) wt in
      rounds n' (S t) (tl win ++ [next_word win]) (temp, a, rotl 30 b, c, d)
  end.

Definition compress (s : State) (block : list Z) : State :=
  let '(h0, h1, h2, h3, h4) := s in
  let '(a, b, c, d, e) := rounds 80 0 block s in
  (add32 h0 a, add32 h1 b, add32 h2 c, add32 h3 d, add32 h4 e).

Definition digest (data : bytes) : State :=
  let p := pad (map byteZ data) in
  let ws := words (List.length p) p in
  fold_left compress (blocks (List.length ws) ws) init.

Definition hexdigits : string := "0123456789abcdef".

Definition hexdigit (x : Z) : ascii :=
  nth (Z.to_nat (x mod 16)) (Str.chars hexdigits) "0"%char.

Fixpoint hex (n : nat) (x : Z) : list ascii :=
  match n with
  | O => []
  | S n' => hexdigit (Z.shiftr x (4 * Z.of_nat n')) :: hex n' x
  end.

Definition hexdigest (data : bytes) : string :=
  let '(h0, h1, h2, h3, h4) := digest data in
  Str.of_chars (hex 8 h0 ++ hex 8 h1 ++ hex 8 h2 ++ hex 8 h3 ++ hex 8 h4).

End SHA1.

Definition bytes_of_string (s : string) : bytes := list_byte_of_string s.

(** ** Exceptions and fatal exits

    A run either goes on, or stops: by [exit(1)] after a diagnostic (the
    spec's error taxonomy), or by a Python exception nobody catches. *)

Inductive Exn :=
| FileExistsError
| FileNotFoundError
| NotADirectoryError
| IsADirectoryError
| IndexError
| KeyError (key : string)
| ValueError
| LibraryError.   (* any other exception the platform functions raise *)

(** ** The file system: a tree of directories *)

#[warnings="-register-all"]
Inductive node :=
| File (data : bytes)
| Dir (entries : list (string * node)).

Abbreviation dir := (list (string * node)).

Module FS.

Fixpoint alookup (name : string) (d : dir) : option node :=
  match d with
  | [] => None
  | (k, n) :: d' => if String.eqb name k then Some n else alookup name d'
  end.

(** Replaces the entry called [name], or adds it at the end. *)
Fixpoint ainsert (name : string) (n : node) (d : dir) : dir :=
  match d with
  | [] => [(name, n)]
  | (k, m) :: d' =>
      if String.eqb name k then (k, n) :: d' else (k, m) :: ainsert name n d'
  end.

(** The node at a path below the directory [d]; the empty path is [d].
    A path is walked name by name: the tree has no links, and every
    component, [".."] too, is the name of an entry. *)
Fixpoint lookup (d : dir) (p : list string) : option node :=
  match p with
  | [] => Some (Dir d)
  | c :: p' =>
      match alookup c d with
      | Some (Dir d') => lookup d' p'
      | Some (File x) => match p' with [] => Some (File x) | _ => None end
      | None => None
      end
  end.

(** The node at a path below a node: nothing is below a file. *)
Definition below (n : node) (p : list string) : option node :=
  match n with
  | Dir d => lookup d p
  | File x => match p with [] => Some (File x) | _ => None end
  end.

Definition exists_ (d : dir) (p : list string) : bool :=
  match lookup d p with Some _ => true | None => false end.

Definition is_dir (d : dir) (p : list string) : bool :=
  match lookup d p with Some (Dir _) => true | _ => false end.

(** A chain of fresh, nested directories. *)
Fixpoint fresh (p : list string) : node :=
  match p with
  | [] => Dir []
  | c :: p' => Dir [(c, fresh p')]
  end.

(** [Path.mkdir(parents=True, exist_ok=...)] and [os.makedirs]. *)
Fixpoint mkdir (exist_ok : bool) (d : dir) (p : list string) : Exn + dir :=
  match p with
  | [] => if exist_ok then inr d else inl FileExistsError
  | c :: p' =>
      match alookup c d with
      | Some (File _) =>
          inl (match p' with [] => FileExistsError | _ => NotADirectoryError end)
      | Some (Dir d') =>
          match mkdir exist_ok d' p' with
          | inr d'' => inr (ainsert c (Dir d'') d)
          | inl e => inl e
          end
      | None => inr (ainsert c (fresh p') d)
      end
  end.

(** [open(p, 'rb').read()]. *)
Definition read (d : dir) (p : list string) : Exn + bytes :=
  match lookup d p with
  | Some (File x) => inr x
  | Some (Dir _) => inl IsADirectoryError
  | None => inl FileNotFoundError
  end.

(** [open(p, 'wb').write(data)] on the tree: creates or truncates the
    file; the parent directory must exist.  What else can make the call
    raise is the platform's ([write_error]). *)
Fixpoint write (d : dir) (p : list string) (data : bytes) : Exn + dir :=
  match p with
  | [] => inl IsADirectoryError
  | c :: p' =>
      match alookup c d, p' with
      | Some (Dir _), [] => inl IsADirectoryError
      | _, [] => inr (ainsert c (File data) d)
      | Some (Dir d'), _ =>
          match write d' p' data with
          | inr d'' => inr (ainsert c (Dir d'') d)
          | inl e => inl e
          end
      | Some (File _), _ => inl NotADirectoryError
      | None, _ => inl FileNotFoundError
      end
  end.

(** Replaces the contents of the existing directory at [p]. *)
Fixpoint set_dir (d : dir) (p : list string) (new : dir) : dir :=
  match p with
  | [] => new
  | c :: p' =>
      match alookup c d with
      | Some (Dir d') => ainsert c (Dir (set_dir d' p' new)) d
      | _ => d
      end
  end.

(** [shutil.copy] and [shutil.copy2] of a regular file with content
    [data] and base name [base] to [p]: when [p] is a directory the file
    goes inside it, under its base name. *)
Definition copy_file (d : dir) (base : string) (data : bytes)
    (p : list string) : Exn + dir :=
  write d (if is_dir d p then p ++ [base] else p) data.

Definition names (d : dir) : list string := map fst d.

(** Directory or file. *)
Definition kind (n : node) : bool :=
  match n with Dir _ => true | File _ => false end.

(** The path [p] can receive a file in [d]: no ancestor of it is a file,
    and it is not a directory. *)
Fixpoint free (d : dir) (p : list string) : bool :=
  match p with
  | [] => false
  | c :: p' =>
      match alookup c d, p' with
      | Some (Dir _), [] => false
      | _, [] => true
      | Some (Dir d'), _ => free d' p'
      | Some (File _), _ => false
      | None, _ => true
      end
  end.

(** Entry names are distinct in every directory of the tree. *)
Fixpoint wf_node (n : node) : bool :=
  match n with
  | File _ => true
  | Dir d =>
      (fix go (d : dir) : bool :=
         match d with
         | [] => true
         | (k, m) :: d' =>
             negb (existsb (String.eqb k) (names d')) && wf_node m && go d'
         end) d
  end.

End FS.

(** ** Paths ([pathlib.PurePosixPath])

    A path is its anchor (absolute or not) and its components; empty and
    ["."] components are dropped when the path is built, [".."] is kept. *)

Record Path := { anchored : bool; parts : list string }.

Definition Path_of (s : string) : Path :=
  {| anchored := match s with String "/" _ => true | _ => false end;
     parts := List.filter (fun c => negb (String.eqb c "" || String.eqb c "."))
                     (Str.split "/" s) |}.

(** [p / s] *)
Definition joinpath (p : Path) (s : string) : Path :=
  let q := Path_of s in
  if anchored q then q
  else {| anchored := anchored p; parts := parts p ++ parts q |}.

Notation "p // s" := (joinpath p s) (at level 40, left associativity).

(** [p.name], [p.stem] and [p.parent] *)
Definition name (p : Path) : string := List.last (parts p) "".

Definition stem_of_name (n : string) : string :=
  match Str.rfind "." n with
  | Some i =>
      if (0 <? i)%nat && (i <? String.length n - 1)%nat then Str.take i n else n
  | None => n
  end.

Definition stem (p : Path) : string := stem_of_name (name p).

Definition parent (p : Path) : Path :=
  {| anchored := anchored p; parts := removelast (parts p) |}.

(** ** The manifest ([modrinth.index.json]) and the resolved resources

    The manifests of the model are the JSON documents of the shape the
    format gives them: an integer [formatVersion], an array [files] of
    objects with an array of strings [downloads], a string [path] and an
    object of strings [hashes].  The record fields are these keys.  The
    list of download URLs may be empty and the [hashes] dict may lack a
    ["sha1"] key, which [getMods] meets as [IndexError] and [KeyError]. *)

Record FileEntry := {
  downloads : list string;
  path : string;
  hashes : gmap string string
}.

Record Manifest := {
  formatVersion : Z;
  files : list FileEntry
}.

(** [{'url': url, 'path': path, 'hash': hash}] *)
Record Resource := {
  r_url : string;
  r_path : string;
  r_hash : string
}.

Abbreviation ResourceList := (list Resource).

(** ** Fatal exits, messages and events *)

(** The diagnostics before [exit(1)], under the names of the spec's error
    taxonomy. *)
Inductive Fatal :=
| NotFound (modpack : Path)            (* Error: File not found *)
| InvalidArchive (modpack : Path)      (* Error: Not a zip file *)
| NotModpack (modpack : Path)          (* Error: Not a Modrinth modpack *)
| UnsupportedVersion (v : Z)           (* Error: Unsupported format version *)
| UnapprovedDomain (domain : string)   (* Error: Unsupported domain *)
| HashMismatch (path : string)         (* Error: Hash mismatch *)
| DownloadFailed (url : string)        (* Error: Failed to download *)
| OverlayFailed.                       (* Error: Failed to copy overrides *)

Inductive Halt :=
| SysExit (why : Fatal)   (* diagnostic printed, then exit(1) *)
| Uncaught (e : Exn).     (* traceback, exit status 1 *)

Definition exit_status (h : Halt) : Z := 1.

Inductive Msg :=
| Banner
| CreatedDirectory (p : Path)
| Extracted (modpack : Path)
| SkippingExtract
| Downloading (url : string)
| Sha1 (digest : string)
| Expected (hash : string)
| FileOK
| SkippingFile (path : string)
| NoOverrides
| CopyingOverrides
| Error (why : Fatal)
| Done.

Inductive Event :=
| Say (m : Msg)
| Fetch (url : string)                      (* urllib.request.urlopen(url) *)
| Unzip (modpack : Path) (target : Path). (* ZipFile.extractall *)

Record World := { fs : dir; out : list Event }.

Definition fetches (evs : list Event) : list string :=
  flat_map (fun e => match e with Fetch u => [u] | _ => [] end) evs.

Definition extractions (evs : list Event) : nat :=
  List.length (List.filter (fun e => match e with Unzip _ _ => true | _ => false end) evs).

(** ** The run monad: state over [World], stopping at the first [Halt] *)

Inductive Res (A : Type) :=
| Ok (a : A)
| Stop (h : Halt).
Arguments Ok {A} a.
Arguments Stop {A} h.

Definition M (A : Type) : Type := World -> Res A * World.

Definition ret {A} (a : A) : M A := fun w => (Ok a, w).

Definition bind {A B} (m : M A) (k : A -> M B) : M B :=
  fun w => match m w with
           | (Ok a, w') => k a w'
           | (Stop h, w') => (Stop h, w')
           end.

Notation "'do' x <- m ; k" := (bind m (fun x => k))
  (at level 10, x name, m at level 100, k at level 200).
Notation "'do_' m ; k" := (bind m (fun _ => k))
  (at level 10, m at level 100, k at level 200).

Definition log (e : Event) : M unit :=
  fun w => (Ok tt, {| fs := fs w; out := out w ++ [e] |}).

Definition print (m : Msg) : M unit := log (Say m).

(** [print(diagnostic); exit(1)] *)
Definition die {A} (why : Fatal) : M A :=
  fun w => (Stop (SysExit why), {| fs := fs w; out := out w ++ [Say (Error why)] |}).

Definition raise {A} (e : Exn) : M A := fun w => (Stop (Uncaught e), w).

Definition get_fs : M dir := fun w => (Ok (fs w), w).

Definition put_fs (d : dir) : M unit :=
  fun w => (Ok tt, {| fs := d; out := out w |}).

(** Runs a file-system operation, raising its exception. *)
Definition lift {A} (r : Exn + A) : M A :=
  match r with inr a => ret a | inl e => raise e end.

(** ** What the script takes from its platform *)

Record Platform := {
  (** [Path.cwd()], absolute *)
  process_cwd : list string;
  (** [zipfile.is_zipfile], on the content of the file *)
  is_zipfile : bytes -> bool;
  (** [ZipFile(modpack).extractall(target)]: the file system after it;
      when it raises, the exception and the file system it leaves, with
      the members extracted until then *)
  extractall : bytes -> list string -> dir -> Exn * dir + dir;
  (** [json.load], for a document of the shape of a manifest; it raises
      for anything else *)
  json_load : bytes -> Exn + Manifest;
  (** [urlopen(url).read()], given the fetches made so far; [None] when it
      raises *)
  urlopen : list string -> string -> option bytes;
  (** [with open(p, 'wb') as f: f.write(data)] on the file system [d], when
      it raises for a reason the tree does not show (a name the system
      refuses, a permission, a full disk): the exception, and what the
      file holds then, [None] when it was not opened *)
  write_error : dir -> list string -> bytes -> option (Exn * option bytes);
  (** [urllib.parse._check_bracketed_netloc]: no [ValueError] *)
  check_bracketed_netloc : string -> bool;
  (** [urllib.parse._checknetloc] on a netloc with non-ASCII characters:
      no [ValueError] *)
  checknetloc : string -> bool
}.

(** ** [urllib.parse.urlparse(url).netloc] and [.hostname] *)

Module Url.

Definition c0_control_or_space (c : ascii) : bool := (Str.code c <=? 32)%N.

Definition unsafe_bytes_to_remove : list ascii := ["009"; "013"; "010"]%char.

Definition scheme_char (c : ascii) : bool :=
  Str.is_lower c || Str.is_upper c || Str.is_digit c || Str.mem c "+-.".

Definition is_alpha (c : ascii) : bool := Str.is_lower c || Str.is_upper c.

Definition clean (url : string) : string :=
  fold_left (fun u b => Str.remove b u) unsafe_bytes_to_remove
            (Str.lstrip c0_control_or_space url).

(** The text after the scheme and its colon, when the text up to the
    first colon is a scheme. *)
Definition after_scheme (url : string) : string :=
  match Str.find ":" url, url with
  | Some (S i), String c0 _ =>
      if Str.is_ascii c0 && is_alpha c0
         && forallb scheme_char (Str.chars (Str.take (S i) url))
      then Str.drop (S (S i)) url
      else url
  | _, _ => url
  end.

(** [_splitnetloc(url, 2)[0]]: from index 2 up to the first of [/?#]. *)
Fixpoint until_delim (s : string) : string :=
  match s with
  | EmptyString => EmptyString
  | String c s' =>
      if Str.mem c "/?#" then EmptyString else String c (until_delim s')
  end.

Definition raw_netloc (url : string) : string :=
  let u := after_scheme (clean url) in
  if String.eqb (Str.take 2 u) "//" then until_delim (Str.drop 2 u)
  else EmptyString.

Section Validation.
Variable P : Platform.

Definition netloc (url : string) : Exn + string :=
  let n := raw_netloc url in
  let open_br := Str.mem "[" n in
  let close_br := Str.mem "]" n in
  if (open_br && negb close_br) || (close_br && negb open_br)
  then inl ValueError
  else if open_br && close_br && negb (check_bracketed_netloc P n)
  then inl ValueError
  else if negb (forallb Str.is_ascii (Str.chars n)) && negb (checknetloc P n)
  then inl ValueError
  else inr n.
End Validation.

(** [SplitResult.hostname], from the netloc: the part after the last
    [@], up to the port, lower-cased before a [%] zone; [None] when
    empty. *)
Definition hostinfo (n : string) : string :=
  let '(_, _, hinfo) := Str.rpartition "@" n in
  let '(_, have_open_br, bracketed) := Str.partition "[" hinfo in
  if have_open_br then
    let '(h, _, _) := Str.partition "]" bracketed in h
  else
    let '(h, _, _) := Str.partition ":" hinfo in h.

Definition hostname (n : string) : option string :=
  let h := hostinfo n in
  if String.eqb h "" then None
  else
    let '(h', percent, zone) := Str.partition "%" h in
    Some (Str.lower h' ++ (if percent then "%" else "") ++ zone)%string.

End Url.

(** ** [shutil.copytree(src, dst, dirs_exist_ok=True)]

    [copytree] is the recursion of [shutil._copytree] on the entries of the
    source directory, merged into the destination directory [dst]: a
    sub-directory is copied by the recursive call (which first makes the
    destination directory, [exist_ok]), a file by [copy2].  An [OSError] on
    one entry is collected and the copy goes on with the next entry; the
    collected errors are raised at the end.  The names it writes are the
    names of the entries it lists. *)

Module Shutil.

(** One entry of the source directory, called [name]. *)
Definition copy_entry (rec : node -> dir -> dir * list Exn)
    (name : string) (src : node) (dst : dir) : dir * list Exn :=
  match src with
  | File data =>
      match FS.copy_file dst name data [name] with
      | inr dst' => (dst', [])
      | inl e => (dst, [e])
      end
  | Dir _ =>
      match FS.alookup name dst with
      | Some (File _) => (dst, [FileExistsError])
      | Some (Dir t) =>
          let '(t', errs) := rec src t in (FS.ainsert name (Dir t') dst, errs)
      | None =>
          let '(t', errs) := rec src [] in (FS.ainsert name (Dir t') dst, errs)
      end
  end.

Definition copy_entries (rec : node -> dir -> dir * list Exn) :=
  fix go (entries : dir) (dst : dir) {struct entries} : dir * list Exn :=
    match entries with
    | [] => (dst, [])
    | (name, src) :: rest =>
        let '(dst1, errs1) := copy_entry rec name src dst in
        let '(dst2, errs2) := go rest dst1 in
        (dst2, errs1 ++ errs2)
    end.

Fixpoint copytree (src : node) (dst : dir) {struct src} : dir * list Exn :=
  match src with
  | File _ => (dst, [NotADirectoryError])
  | Dir entries => copy_entries copytree entries dst
  end.

(** The call at the top, on paths of the file system [d]: the source is
    listed, the destination made with its parents, then the entries are
    copied. *)
Definition copytree_at (d : dir) (src dst : list string) : dir * list Exn :=
  match FS.lookup d src with
  | None => (d, [FileNotFoundError])
  | Some (File _) => (d, [NotADirectoryError])
  | Some (Dir entries) =>
      match FS.mkdir true d dst with
      | inl e => (d, [e])
      | inr d1 =>
          match FS.lookup d1 dst with
          | Some (Dir t) =>
              let '(t', errs) := copytree (Dir entries) t in
              (FS.set_dir d1 dst t', errs)
          | _ => (d1, [NotADirectoryError])
          end
      end
  end.

End Shutil.

(** ** The script *)

Definition ACCEPTED_DOMAINS : list string :=
  ["cdn.modrinth.com"; "github.com"; "raw.githubusercontent.com"; "gitlab.com"].

(** [str.strip()] removes the characters of [str.isspace] at both ends.
    The text is UTF-8.  The white space of the ASCII range is U+0009 to
    U+000D and U+001C to U+0020; the other white-space characters are
    U+0085, U+00A0, U+1680, U+2000 to U+200A, U+2028, U+2029, U+202F,
    U+205F and U+3000, here by the bytes of their encodings. *)
Definition is_space (c : ascii) : bool :=
  let n := Str.code c in
  ((9 <=? n) && (n <=? 13) || (28 <=? n) && (n <=? 32))%N.

Definition unicode_spaces : list (list N) :=
  ([[194; 133]; [194; 160]; [225; 154; 128]]
   ++ map (fun k => [226; 128; k]) [128; 129; 130; 131; 132; 133; 134; 135; 136; 137; 138]
   ++ [[226; 128; 168]; [226; 128; 169]; [226; 128; 175]; [226; 129; 159];
       [227; 128; 128]])%N.

Fixpoint starts_with (enc : list N) (s : string) : bool :=
  match enc, s with
  | [], _ => true
  | n :: enc', String c s' => (Str.code c =? n)%N && starts_with enc' s'
  | _ :: _, EmptyString => false
  end.

(** The number of bytes of the white-space character [s] starts with, 0
    when it starts with none; [encs] are the encodings of more than one
    byte. *)
Definition space_prefix (encs : list (list N)) (s : string) : nat :=
  match s with
  | EmptyString => 0
  | String c _ =>
      if is_space c then 1
      else match List.find (fun enc => starts_with enc s) encs with
           | Some enc => List.length enc
           | None => 0
           end
  end.

Fixpoint lstrip_spaces (encs : list (list N)) (fuel : nat) (s : string) : string :=
  match fuel with
  | O => s
  | S fuel' =>
      match space_prefix encs s with
      | O => s
      | n => lstrip_spaces encs fuel' (Str.drop n s)
      end
  end.

(** The right end is stripped on the reversed text, with the encodings
    reversed. *)
Definition strip (s : string) : string :=
  let l := lstrip_spaces unicode_spaces (String.length s) s in
  Str.rev (lstrip_spaces (map (@List.rev N) unicode_spaces) (String.length l) (Str.rev l)).

Section Script.
Context (P : Platform).

Definition cwd : Path :=
  {| anchored := true; parts := process_cwd P |} // "modpacktools" // "legacyinstall".

(** Where the operating system finds a path: a relative one is taken
    from the process's working directory. *)
Definition abs (p : Path) : list string :=
  if anchored p then parts p else process_cwd P ++ parts p.

(** [p.exists()] *)
Definition path_exists (p : Path) : M bool :=
  fun w => (Ok (FS.exists_ (fs w) (abs p)), w).

(** [p.mkdir(parents=True, exist_ok=...)] *)
Definition mkdir (exist_ok : bool) (p : Path) : M unit :=
  do d <- get_fs;
  do d' <- lift (FS.mkdir exist_ok d (abs p));
  put_fs d'.

(** [zipfile.is_zipfile(p)]: [False] when the file cannot be read. *)
Definition path_is_zipfile (p : Path) : M bool :=
  fun w => (Ok (match FS.read (fs w) (abs p) with
                | inr x => is_zipfile P x
                | inl _ => false
                end), w).

(** [with zipfile.ZipFile(modpack, 'r') as zip_ref: zip_ref.extractall(target)] *)
Definition zip_extractall (modpack target : Path) : M unit :=
  do d <- get_fs;
  do raw <- lift (FS.read d (abs modpack));
  do_ log (Unzip modpack target);
  match extractall P raw (abs target) d with
  | inr d' => put_fs d'
  | inl (e, d') => do_ put_fs d'; raise e
  end.

(** [with index.open('r') as f: data = json.load(f)] *)
Definition load_json (index : Path) : M Manifest :=
  do d <- get_fs;
  do raw <- lift (FS.read d (abs index));
  lift (json_load P raw).

(** [loadModpack], in its three steps: the archive is checked and
    extracted once (lines 18-37), the index is found and read (lines
    39-47), its format version is checked (lines 49-54). *)
Definition modpack_dir_of (modpack : Path) : Path :=
  cwd // stem modpack // "pack".

Definition loadModpack_extract (modpack : Path) : M Path :=
  do found <- path_exists modpack;
  if negb found then die (NotFound modpack) else
  do zip <- path_is_zipfile modpack;
  if negb zip then die (InvalidArchive modpack) else
  let modpack_dir := modpack_dir_of modpack in
  do present <- path_exists modpack_dir;
  if negb present then
    do_ mkdir false modpack_dir;
    do_ print (CreatedDirectory modpack_dir);
    do_ zip_extractall modpack modpack_dir;
    do_ print (Extracted modpack);
    ret modpack_dir
  else
    do_ print SkippingExtract;
    ret modpack_dir.

Definition loadModpack_index (modpack modpack_dir : Path) : M Manifest :=
  let index := modpack_dir // "modrinth.index.json" in
  do has_index <- path_exists index;
  if negb has_index then die (NotModpack modpack) else
  load_json index.

Definition loadModpack_version (data : Manifest) : M Manifest :=
  if negb (formatVersion data =? 1)%Z
  then die (UnsupportedVersion (formatVersion data))
  else ret data.

Definition loadModpack (modpack : Path) : M Manifest :=
  do modpack_dir <- loadModpack_extract modpack;
  do data <- loadModpack_index modpack modpack_dir;
  loadModpack_version data.

(** The body of the loop of [getMods] on one [file]. *)
Definition getMods_body (file : FileEntry) : M Resource :=
  do url <- lift (match downloads file with
                  | u :: _ => inr u
                  | [] => inl IndexError
                  end);
  let path := path file in
  do hash <- lift (match hashes file !! "sha1" with
                   | Some h => inr h
                   | None => inl (KeyError "sha1")
                   end);
  do domain <- lift (Url.netloc P url);
  if negb (existsb (String.eqb domain) ACCEPTED_DOMAINS)
  then die (UnapprovedDomain domain)
  else ret {| r_url := url; r_path := path; r_hash := hash |}.

Fixpoint getMods_loop (files : list FileEntry) (resources : ResourceList)
    : M ResourceList :=
  match files with
  | [] => ret resources
  | file :: rest =>
      do r <- getMods_body file;
      getMods_loop rest (resources ++ [r])
  end.

Definition getMods (data : Manifest) : M ResourceList :=
  getMods_loop (files data) [].

(** [urllib.request.urlopen(url)] and [response.read()] *)
Definition fetch (url : string) : M (option bytes) :=
  fun w => (Ok (urlopen P (fetches (out w)) url),
            {| fs := fs w; out := out w ++ [Fetch url] |}).

(** [with file.open('wb') as f: f.write(data)] on the file system [d]: the
    file system after it; when it raises, the exception and the file
    system it leaves.  The names come from the manifest, and the system
    may refuse them. *)
Definition write_file (d : dir) (p : list string) (data : bytes) : Exn * dir + dir :=
  match write_error P d p data with
  | Some (e, None) => inl (e, d)
  | Some (e, Some part) =>
      inl (e, match FS.write d p part with inr d' => d' | inl _ => d end)
  | None =>
      match FS.write d p data with
      | inr d' => inr d'
      | inl e => inl (e, d)
      end
  end.

(** The body of the loop of [downloadMods] on one [resource].  The
    [exit(1)] of the hash check raises [SystemExit], which the
    [except Exception] around it does not catch. *)
Definition downloadMods_body (installDir : Path) (resource : Resource) : M unit :=
  let url := r_url resource in
  let path := r_path resource in
  let hash := r_hash resource in
  let file := installDir // path in
  do_ mkdir true (parent file);
  do present <- path_exists file;
  if present then print (SkippingFile path)
  else
    do_ print (Downloading url);
    do response <- fetch url;
    match response with
    | None => die (DownloadFailed url)
    | Some data =>
        let digest := SHA1.hexdigest data in
        do_ print (Sha1 digest);
        do_ print (Expected hash);
        if negb (String.eqb digest hash) then die (HashMismatch path)
        else
          do_ print FileOK;
          do d <- get_fs;
          match write_file d (abs file) data with
          | inr d' => put_fs d'
          | inl (_, d') => do_ put_fs d'; die (DownloadFailed url)
          end
    end.

Fixpoint for_each {A} (body : A -> M unit) (l : list A) : M unit :=
  match l with
  | [] => ret tt
  | x :: rest => do_ body x; for_each body rest
  end.

Definition installDir_of (modpack : Path) : Path :=
  cwd // stem modpack // "install".

Definition downloadMods (modpack : Path) (resources : ResourceList) : M unit :=
  let installDir := installDir_of modpack in
  do_ mkdir true installDir;
  for_each (downloadMods_body installDir) resources.

(** [shutil.copy(src, dst)] *)
Definition shutil_copy (src dst : Path) : M unit :=
  do d <- get_fs;
  do data <- lift (FS.read d (abs src));
  do d' <- lift (FS.copy_file d (name src) data (abs dst));
  put_fs d'.

(** [try: shutil.copytree(...) except Exception: ... exit(1)] *)
Definition try_copytree (src dst : Path) : M unit :=
  fun w =>
    let '(d', errs) := Shutil.copytree_at (fs w) (abs src) (abs dst) in
    match errs with
    | [] => (Ok tt, {| fs := d'; out := out w |})
    | _ :: _ => die OverlayFailed {| fs := d'; out := out w |}
    end.

Definition overrides_of (modpack : Path) : Path :=
  cwd // stem modpack // "pack" // "overrides".

Definition copyOverrides (modpack : Path) : M unit :=
  let pack := cwd // stem modpack // "pack" in
  let overrides := pack // "overrides" in
  do present <- path_exists overrides;
  if negb present then print NoOverrides
  else
    do_ print CopyingOverrides;
    let installDir := cwd // stem modpack // "install" in
    do_ try_copytree overrides installDir;
    shutil_copy (pack // "modrinth.index.json") (installDir // "modrinth.index.json").

(** The path typed by the user: the line is stripped, and the single and
    double quotes a drag-and-drop leaves in it are removed (line 139). *)
Definition modpack_of_input (user : string) : Path :=
  Path_of (Str.remove "034"%char (Str.remove "'"%char (strip user))).

(** [main], from the line the user typed. *)
Definition main (user : string) : M unit :=
  do_ print Banner;
  let modpack := modpack_of_input user in
  do_ mkdir true cwd;
  do index <- loadModpack modpack;
  do resources <- getMods index;
  do_ downloadMods modpack resources;
  do_ copyOverrides modpack;
  print Done.

End Script.

(** ** Vocabulary of the properties *)

(** [domain in ACCEPTED_DOMAINS] *)
Definition accepted (domain : string) : bool :=
  existsb (String.eqb domain) ACCEPTED_DOMAINS.

(** The entry has what [getMods] reads from it: a first download URL that
    [urlparse] takes, and a ["sha1"] hash. *)
Definition entry_wf (P : Platform) (e : FileEntry) : bool :=
  match downloads e, hashes e !! "sha1" with
  | u :: _, Some _ =>
      match Url.netloc P u with inr _ => true | inl _ => false end
  | _, _ => false
  end.

(** The host of the entry's first download URL is on the allow-list. *)
Definition host_allowed (e : FileEntry) : bool :=
  match downloads e with
  | u :: _ =>
      match Url.hostname (Url.raw_netloc u) with
      | Some h => accepted h
      | None => false
      end
  | [] => false
  end.

(** The netloc of the entry's first download URL is, as a string, one of
    the allow-listed names. *)
Definition netloc_allowed (e : FileEntry) : bool :=
  match downloads e with
  | u :: _ => accepted (Url.raw_netloc u)
  | [] => false
  end.

(** The resource is the entry's first URL, its path and its SHA-1 hash. *)
Definition resolves_to (e : FileEntry) (r : Resource) : Prop :=
  head (downloads e) = Some (r_url r)
  /\ path e = r_path r
  /\ hashes e !! "sha1" = Some (r_hash r).

(** Everything of [d] is still in [d'], a directory as a directory and a
    file as a file. *)
Definition keeps (d d' : dir) : Prop :=
  forall q n,
    FS.lookup d q = Some n ->
    exists n', FS.lookup d' q = Some n' /\ FS.kind n' = FS.kind n.

(** Where [downloadMods] puts a resource. *)
Definition dest (P : Platform) (modpack : Path) (r : Resource) : list string :=
  abs P (installDir_of P modpack // r_path r).

(** The message of line 87 for each resource. *)
Definition skip_messages (rs : ResourceList) : list Event :=
  map (fun r => Say (SkippingFile (r_path r))) rs.

(** Lines 136 and 141 of [main]: what happens before the loader runs. *)
Definition startup (P : Platform) : M unit :=
  do_ print Banner; mkdir P true (cwd P).

(** A computation that only prints: whatever its outcome, the file system
    is untouched and the new events are messages. *)
Definition prints_only {A} (m : M A) : Prop :=
  forall w r w',
    m w = (r, w') -> fs w' = fs w /\ exists msgs, out w' = out w ++ map Say msgs.

(** The URLs opened so far. *)
Definition fetched (w : World) : list string := fetches (out w).

(** What stays the same through a computation, whatever its outcome. *)
Definition stable {X A} (f : World -> X) (m : M A) : Prop :=
  forall w r w', m w = (r, w') -> f w' = f w.

(** ** A small platform and file system to run the script on *)

Module Demo.

Definition sha1_of_nothing : string := "da39a3ee5e6b4b0d3255bfef95601890afd80709".

Definition entry (url hash : string) : FileEntry :=
  {| downloads := [url]; path := "mods/mod.jar";
     hashes := {[ "sha1" := hash ]} |}.

Definition good_url : string := "https://cdn.modrinth.com/data/abc/mod.jar".

Definition manifest1 : Manifest :=
  {| formatVersion := 1; files := [entry good_url sha1_of_nothing] |}.

Definition manifest2 : Manifest :=
  {| formatVersion := 2; files := [entry good_url sha1_of_nothing] |}.

Definition manifest3 : Manifest :=
  {| formatVersion := 1;
     files := [entry good_url sha1_of_nothing;
               entry "https://evil.example/mod.jar" sha1_of_nothing] |}.

(** The archives of this platform are the text [PK] followed by one
    character that picks the manifest they hold. *)
Definition manifest_of (raw : bytes) : Exn + Manifest :=
  match string_of_list_byte raw with
  | "PK1" => inr manifest1
  | "PK2" => inr manifest2
  | "PK3" => inr manifest3
  | _ => inl LibraryError
  end.

Definition platform : Platform :=
  {| process_cwd := ["home"; "u"];
     is_zipfile := fun raw =>
       match raw with
       | x50 :: x4b :: _ => true
       | _ => false
       end;
     extractall := fun raw target d =>
       match FS.write d (target ++ ["modrinth.index.json"]) raw with
       | inr d' => inr d'
       | inl e => inl (e, d)
       end;
     json_load := manifest_of;
     urlopen := fun _ _ => Some [];
     write_error := fun _ p _ =>
       if existsb (Str.mem "000"%char) p then Some (ValueError, None) else None;
     check_bracketed_netloc := fun _ => true;
     checknetloc := fun _ => true |}.

(** The same platform with the network down. *)
Definition offline : Platform :=
  {| process_cwd := process_cwd platform;
     is_zipfile := is_zipfile platform;
     extractall := extractall platform;
     json_load := json_load platform;
     urlopen := fun _ _ => None;
     write_error := write_error platform;
     check_bracketed_netloc := check_bracketed_netloc platform;
     checknetloc := checknetloc platform |}.

Definition modpack : Path := Path_of "Pack.zip".

Definition empty_world : World := {| fs := []; out := [] |}.

Definition resource (hash : string) : Resource :=
  {| r_url := "https://cdn.modrinth.com/data/abc/mod.jar";
     r_path := "mods/mod.jar";
     r_hash := hash |}.

Definition mod_jar : list string :=
  ["home"; "u"; "modpacktools"; "legacyinstall"; "Pack"; "install"; "mods"; "mod.jar"].

(** The file system with only the install tree of [Pack.zip] *)
Definition tree (install : dir) : dir :=
  [("home", Dir [("u", Dir [("modpacktools", Dir [("legacyinstall",
     Dir [("Pack", Dir [("install", Dir install)])])])])])].

Definition manifest_name : string := "modrinth.index.json".

Definition pack_dir : list string :=
  ["home"; "u"; "modpacktools"; "legacyinstall"; "Pack"; "pack"].

Definition install_dir : list string :=
  ["home"; "u"; "modpacktools"; "legacyinstall"; "Pack"; "install"].

(** A file system after extraction and download: the pack holds the
    manifest [M] and [overrides], the install tree holds [install]. *)
Definition overlay_world (overrides install : dir) : World :=
  {| fs := [("home", Dir [("u", Dir [("modpacktools", Dir [("legacyinstall",
              Dir [("Pack", Dir [("pack", Dir [(manifest_name, File [x4d]);
                                               ("overrides", Dir overrides)]);
                                 ("install", Dir install)])])])])])];
     out := [] |}.

(** An archive that cannot be extracted to the end: on the platform
    [broken], [extractall] raises after its first member,
    [modrinth.index.json]. *)
Definition broken : Platform :=
  {| process_cwd := process_cwd platform;
     is_zipfile := is_zipfile platform;
     extractall := fun raw target d =>
       match extractall platform raw target d with
       | inr d' => inl (LibraryError, d')
       | inl failed => inl failed
       end;
     json_load := json_load platform;
     urlopen := urlopen platform;
     write_error := write_error platform;
     check_bracketed_netloc := check_bracketed_netloc platform;
     checknetloc := checknetloc platform |}.

Definition world (archive : string) : World :=
  {| fs := [("home", Dir [("u", Dir [("Pack.zip", File (bytes_of_string archive))])])];
     out := [] |}.

(** The worlds a run on [Pack.zip] goes through. *)
Definition started (archive : string) : World :=
  snd (startup platform (world archive)).

Definition extracted (archive : string) : World :=
  snd (loadModpack_extract platform modpack (started archive)).

Definition indexed (archive : string) : World :=
  snd (loadModpack_index platform modpack (modpack_dir_of platform modpack)
         (extracted archive)).

Definition loaded (archive : string) : World :=
  snd (loadModpack platform modpack (started archive)).

End Demo.

(** * Properties *)

(** ** The library models on known values *)

Example sha1_empty :
  SHA1.hexdigest [] = "da39a3ee5e6b4b0d3255bfef95601890afd80709".
Proof. vm_compute. reflexivity. Qed.

Example sha1_abc :
  SHA1.hexdigest (bytes_of_string "abc") = "a9993e364706816aba3e25717850c26c9cd0d89d".
Proof. vm_compute. reflexivity. Qed.

Example sha1_two_blocks :
  SHA1.hexdigest
    (bytes_of_string "abcdbcdecdefdefgefghfghighijhijkijkljklmklmnlmnomnopnopq")
  = "84983e441c3bd26ebaae4aa1f95129e5e54670f1".
Proof. vm_compute. reflexivity. Qed.

Example stem_zip : stem (Path_of "/home/u/My Pack.1.2.mrpack") = "My Pack.1.2".
Proof. reflexivity. Qed.

Example stem_hidden : stem (Path_of "packs/.hidden") = ".hidden".
Proof. reflexivity. Qed.

Example join_absolute :
  Path_of "/srv/install" // "/etc/passwd" = Path_of "/etc/passwd".
Proof. reflexivity. Qed.

Example join_relative :
  parts (Path_of "/srv/install" // "mods/./a.jar") = ["srv"; "install"; "mods"; "a.jar"].
Proof. reflexivity. Qed.

Example netloc_plain :
  Url.raw_netloc "https://cdn.modrinth.com/data/abc/mod.jar" = "cdn.modrinth.com".
Proof. reflexivity. Qed.

Example netloc_port :
  Url.raw_netloc "https://cdn.modrinth.com:443/data/abc/mod.jar"
  = "cdn.modrinth.com:443"
  /\ Url.hostname "cdn.modrinth.com:443" = Some "cdn.modrinth.com".
Proof. split; reflexivity. Qed.

Example netloc_userinfo :
  Url.raw_netloc "https://user:pw@github.com/a/b" = "user:pw@github.com"
  /\ Url.hostname "user:pw@github.com" = Some "github.com".
Proof. split; reflexivity. Qed.

Example netloc_case :
  Url.raw_netloc "HTTPS://GitHub.com/a/b?x#y" = "GitHub.com"
  /\ Url.hostname "GitHub.com" = Some "github.com".
Proof. split; reflexivity. Qed.

Example netloc_none :
  Url.raw_netloc "mods/mod.jar" = "" /\ Url.hostname "" = None.
Proof. split; reflexivity. Qed.

(** [str.strip()] takes the white space of Unicode off both ends, here a
    no-break space (U+00A0), an ideographic space (U+3000) and a tab, and
    leaves a zero-width space (U+200B), which is no white space. *)
Example strip_unicode_spaces :
  let nbsp := String "194" (String "160" "") in
  let ideographic := String "227" (String "128" (String "128" "")) in
  let zero_width := String "226" (String "128" (String "139" "")) in
  strip (" " ++ nbsp ++ "Pack.zip" ++ ideographic ++ String "009" "")%string = "Pack.zip"
  /\ strip (zero_width ++ "Pack.zip")%string = (zero_width ++ "Pack.zip")%string
  /\ parts (modpack_of_input (nbsp ++ " 'mods/Pack.zip' " ++ ideographic)%string)
     = ["mods"; "Pack.zip"].
Proof. vm_compute. repeat split. Qed.

(** ** The file system *)

Section FSFacts.
Import FS.

Lemma alookup_ainsert_eq c n d : alookup c (ainsert c n d) = Some n.
Proof.
  induction d as [|[k m] d IH]; simpl.
  - now rewrite String.eqb_refl.
  - destruct (String.eqb c k) eqn:E; simpl; rewrite E; auto.
Qed.

Lemma alookup_ainsert_ne c k n d :
  c <> k -> alookup c (ainsert k n d) = alookup c d.
Proof.
  intros Hne. induction d as [|[k' m] d IH]; simpl.
  - apply String.eqb_neq in Hne. now rewrite Hne.
  - destruct (String.eqb k k') eqn:E; simpl.
    + apply String.eqb_eq in E. subst k'.
      apply String.eqb_neq in Hne. now rewrite Hne.
    + now rewrite IH.
Qed.

Lemma ainsert_same c n d : alookup c d = Some n -> ainsert c n d = d.
Proof.
  induction d as [|[k m] d IH]; simpl; [discriminate|].
  destruct (String.eqb c k) eqn:E.
  - intros [= ->]. reflexivity.
  - intros H. now rewrite IH.
Qed.

Lemma write_below d c c' p data :
  write d (c :: c' :: p) data =
  match alookup c d with
  | Some (Dir d') =>
      match write d' (c' :: p) data with
      | inr d'' => inr (ainsert c (Dir d'') d)
      | inl e => inl e
      end
  | Some (File _) => inl NotADirectoryError
  | None => inl FileNotFoundError
  end.
Proof. simpl. destruct (alookup c d) as [[x|d']|]; reflexivity. Qed.

Lemma lookup_cons d c p :
  lookup d (c :: p) =
  match alookup c d with
  | Some (Dir d') => lookup d' p
  | Some (File x) => match p with [] => Some (File x) | _ => None end
  | None => None
  end.
Proof. reflexivity. Qed.

(** Below an existing node, the directories are all there already. *)
Lemma mkdir_parent_of_existing d p n :
  lookup d p = Some n -> mkdir true d (removelast p) = inr d.
Proof.
  revert d. induction p as [|c p IH]; intros d H; [reflexivity|].
  destruct p as [|c' p]; [reflexivity|].
  change (removelast (c :: c' :: p)) with (c :: removelast (c' :: p)).
  cbn [lookup] in H. cbn [mkdir].
  destruct (alookup c d) as [[x|d']|] eqn:E; try discriminate.
  rewrite (IH d' H). now rewrite (ainsert_same _ _ _ E).
Qed.

Lemma is_dir_fresh c p d : is_dir (ainsert c (fresh p) d) (c :: p) = true.
Proof.
  unfold is_dir. cbn [lookup]. rewrite alookup_ainsert_eq.
  clear c d. induction p as [|c p IH]; [reflexivity|].
  cbn [fresh lookup alookup]. rewrite String.eqb_refl. exact IH.
Qed.

(** After [mkdir], the directory is there. *)
Lemma mkdir_is_dir ok d p d1 : mkdir ok d p = inr d1 -> is_dir d1 p = true.
Proof.
  revert d d1. induction p as [|c p IH]; intros d d1 H; [reflexivity|].
  simpl in H.
  destruct (alookup c d) as [[x|d']|] eqn:E.
  - destruct p; discriminate.
  - destruct (mkdir ok d' p) as [e|d''] eqn:E'; [discriminate|].
    injection H as <-. unfold is_dir. simpl. rewrite alookup_ainsert_eq.
    apply (IH _ _ E').
  - injection H as <-. apply is_dir_fresh.
Qed.

(** Writing a new file in an existing directory succeeds, and the file
    then holds the data. *)
Lemma write_new d p data :
  is_dir d (removelast p) = true -> lookup d p = None ->
  exists d2, write d p data = inr d2 /\ lookup d2 p = Some (File data).
Proof.
  revert d. induction p as [|c p IH]; intros d Hdir Hnone; [discriminate|].
  destruct p as [|c' p].
  - simpl in Hnone. simpl.
    destruct (alookup c d) as [[x|d']|] eqn:E; try discriminate.
    eexists; split; [reflexivity|]. simpl. now rewrite alookup_ainsert_eq.
  - change (removelast (c :: c' :: p)) with (c :: removelast (c' :: p)) in Hdir.
    unfold is_dir in Hdir. cbn [lookup] in Hdir, Hnone.
    destruct (alookup c d) as [[x|d']|] eqn:E.
    + destruct (removelast (c' :: p)); discriminate.
    + destruct (IH d') as (d2 & Hw & Hl); auto.
      rewrite write_below, E, Hw. eexists; split; [reflexivity|].
      rewrite lookup_cons, alookup_ainsert_eq. exact Hl.
    + discriminate.
Qed.

(** A write leaves every other file as it was. *)
Lemma write_other d q data d' p x :
  write d q data = inr d' -> lookup d p = Some (File x) -> p <> q ->
  lookup d' p = Some (File x).
Proof.
  revert d d' p. induction q as [|c q IH]; intros d d' p Hw Hl Hne; [discriminate|].
  destruct p as [|k p]; [discriminate|].
  simpl in Hw.
  destruct (String.eqb_spec k c) as [->|Hkc].
  - simpl in Hl.
    destruct (alookup c d) as [[y|t]|] eqn:E; try discriminate.
    + destruct p; [|discriminate]. destruct q; [congruence|discriminate].
    + destruct q as [|c' q]; [discriminate|].
      destruct (write t (c' :: q) data) as [e|t'] eqn:Ew; [discriminate|].
      injection Hw as <-. simpl. rewrite alookup_ainsert_eq.
      apply (IH _ _ _ Ew Hl). congruence.
  - assert (alookup k d' = alookup k d) as Hk.
    { destruct (alookup c d) as [[y|t]|], q as [|c' q]; try discriminate;
        try (injection Hw as <-; now apply alookup_ainsert_ne).
      destruct (write t (c' :: q) data); [discriminate|].
      injection Hw as <-. now apply alookup_ainsert_ne. }
    simpl in *. now rewrite Hk.
Qed.

End FSFacts.

(** ** The run monad and the loops *)

Lemma bind_ok {A B} (m : M A) (k : A -> M B) w a w' :
  m w = (Ok a, w') -> bind m k w = k a w'.
Proof. intros H. unfold bind. now rewrite H. Qed.

Lemma bind_stop {A B} (m : M A) (k : A -> M B) w h w' :
  m w = (Stop h, w') -> bind m k w = (Stop h, w').
Proof. intros H. unfold bind. now rewrite H. Qed.

(** Runs the first action of a sequence, given how it ends. *)
Ltac run_ok := erewrite bind_ok; [|solve [eauto | reflexivity]].

Section ScriptFacts.
Context (P : Platform).

Lemma fetches_app evs evs' : fetches (evs ++ evs') = fetches evs ++ fetches evs'.
Proof. unfold fetches. now rewrite !flat_map_concat_map, map_app, concat_app. Qed.

Lemma fetches_app_print evs m : fetches (evs ++ [Say m]) = fetches evs.
Proof. rewrite fetches_app. simpl. apply app_nil_r. Qed.

Lemma mkdir_run ok p w :
  mkdir P ok p w =
  match FS.mkdir ok (fs w) (abs P p) with
  | inr d => (Ok tt, {| fs := d; out := out w |})
  | inl e => (Stop (Uncaught e), w)
  end.
Proof.
  unfold mkdir, bind, get_fs, lift, put_fs, ret, raise.
  destruct (FS.mkdir ok (fs w) (abs P p)); reflexivity.
Qed.

Lemma mkdir_ok ok p w d :
  FS.mkdir ok (fs w) (abs P p) = inr d ->
  mkdir P ok p w = (Ok tt, {| fs := d; out := out w |}).
Proof. intros H. now rewrite mkdir_run, H. Qed.

Lemma joinpath_anchored p s : anchored p = true -> anchored (p // s) = true.
Proof.
  intros H. unfold joinpath.
  destruct (anchored (Path_of s)) eqn:E; [exact E | exact H].
Qed.

Lemma installDir_anchored modpack : anchored (installDir_of P modpack) = true.
Proof. unfold installDir_of. now do 2 apply joinpath_anchored. Qed.

Lemma abs_parent p :
  anchored p = true -> abs P (parent p) = removelast (abs P p).
Proof. unfold abs, parent. simpl. now intros ->. Qed.

Lemma for_each_app {A} (body : A -> M unit) l1 l2 w :
  for_each body (l1 ++ l2) w =
  match for_each body l1 w with
  | (Ok _, w1) => for_each body l2 w1
  | (Stop h, w1) => (Stop h, w1)
  end.
Proof.
  revert w. induction l1 as [|x l1 IH]; intros w; simpl; [reflexivity|].
  unfold bind. destruct (body x w) as [[[]|h] w']; [apply IH | reflexivity].
Qed.

(** Once the verifier has gone through [pre], it goes on with the rest
    from the world it has reached. *)
Lemma downloadMods_app modpack pre post w w1 :
  downloadMods P modpack pre w = (Ok tt, w1) ->
  downloadMods P modpack (pre ++ post) w =
  for_each (downloadMods_body P (installDir_of P modpack)) post w1.
Proof.
  unfold downloadMods, bind.
  destruct (mkdir P true (installDir_of P modpack) w) as [[[]|h] w0];
    [|discriminate].
  intros H. now rewrite for_each_app, H.
Qed.

Lemma for_each_one {A} (body : A -> M unit) x w : for_each body [x] w = body x w.
Proof.
  simpl. unfold bind. destruct (body x w) as [[[]|h] w']; reflexivity.
Qed.

Lemma for_each_stop {A} (body : A -> M unit) x rest w h w' :
  body x w = (Stop h, w') -> for_each body (x :: rest) w = (Stop h, w').
Proof. intros H. simpl. unfold bind. now rewrite H. Qed.

Lemma for_each_step {A} (body : A -> M unit) x rest w w' :
  body x w = (Ok tt, w') -> for_each body (x :: rest) w = for_each body rest w'.
Proof. intros H. simpl. unfold bind. now rewrite H. Qed.

(** *** The three ways through the body of the download loop *)

Lemma body_skip installDir r w :
  anchored installDir = true ->
  FS.exists_ (fs w) (abs P (installDir // r_path r)) = true ->
  downloadMods_body P installDir r w =
  (Ok tt, {| fs := fs w; out := out w ++ [Say (SkippingFile (r_path r))] |}).
Proof.
  intros Ha Hex. unfold downloadMods_body.
  assert (mkdir P true (parent (installDir // r_path r)) w = (Ok tt, w)) as Hmk.
  { rewrite mkdir_run, abs_parent by now apply joinpath_anchored.
    unfold FS.exists_ in Hex.
    destruct (FS.lookup (fs w) (abs P (installDir // r_path r))) as [n|] eqn:E;
      [|discriminate].
    rewrite (mkdir_parent_of_existing _ _ _ E). now destruct w. }
  run_ok. unfold path_exists at 1. unfold bind at 1. now rewrite Hex.
Qed.

Section Fetched.
Variables (installDir : Path) (r : Resource) (w : World) (d1 : dir) (data : bytes).
Let file := installDir // r_path r.
Let w1 := {| fs := d1;
             out := out w ++ [Say (Downloading (r_url r)); Fetch (r_url r);
                              Say (Sha1 (SHA1.hexdigest data));
                              Say (Expected (r_hash r))] |}.
Hypothesis Hanch : anchored installDir = true.
Hypothesis Hmk : FS.mkdir true (fs w) (abs P (parent file)) = inr d1.
Hypothesis Hnew : FS.exists_ d1 (abs P file) = false.
Hypothesis Hfetch : urlopen P (fetches (out w)) (r_url r) = Some data.

(** Up to the comparison of the digests. *)
Lemma body_fetched :
  downloadMods_body P installDir r w =
  (if negb (String.eqb (SHA1.hexdigest data) (r_hash r))
   then die (HashMismatch (r_path r))
   else
     do_ print FileOK;
     do d <- get_fs;
     match write_file P d (abs P file) data with
     | inr d' => put_fs d'
     | inl (_, d') => do_ put_fs d'; die (DownloadFailed (r_url r))
     end) w1.
Proof.
  unfold downloadMods_body. fold file.
  erewrite bind_ok by (apply mkdir_ok, Hmk).
  unfold path_exists at 1. unfold bind at 1. cbn [fs]. rewrite Hnew.
  unfold bind at 1. unfold print at 1, log at 1.
  unfold bind at 1. unfold fetch at 1. cbn [fs out].
  rewrite fetches_app_print, Hfetch.
  unfold bind at 1. unfold print at 1, log at 1.
  unfold bind at 1. unfold print at 1, log at 1. cbn [fs out].
  unfold w1. now rewrite <- !app_assoc.
Qed.

Lemma body_mismatch :
  SHA1.hexdigest data <> r_hash r ->
  downloadMods_body P installDir r w =
  (Stop (SysExit (HashMismatch (r_path r))),
   {| fs := d1; out := out w1 ++ [Say (Error (HashMismatch (r_path r)))] |}).
Proof.
  intros Hne. apply String.eqb_neq in Hne.
  rewrite body_fetched, Hne. reflexivity.
Qed.

(** After the comparison, when the digests are equal. *)
Lemma body_verified :
  SHA1.hexdigest data = r_hash r ->
  downloadMods_body P installDir r w =
  match write_file P d1 (abs P file) data with
  | inr d2 => (Ok tt, {| fs := d2; out := out w1 ++ [Say FileOK] |})
  | inl (_, d2) =>
      (Stop (SysExit (DownloadFailed (r_url r))),
       {| fs := d2;
          out := out w1 ++ [Say FileOK; Say (Error (DownloadFailed (r_url r)))] |})
  end.
Proof.
  intros Heq. apply String.eqb_eq in Heq.
  rewrite body_fetched, Heq. cbn [negb].
  unfold bind, print, log, get_fs, put_fs, die, w1. cbn [fs out].
  destruct (write_file P d1 (abs P file) data) as [[e d2]|d2]; cbn [fs out];
    [now rewrite <- app_assoc | reflexivity].
Qed.

(** The tree takes the new file: the parent directory was made, and
    nothing is at the path. *)
Lemma write_accepted :
  exists d2,
    FS.write d1 (abs P file) data = inr d2 /\
    FS.read d2 (abs P file) = inr data.
Proof.
  destruct (write_new d1 (abs P file) data) as (d2 & Hw & Hl).
  - rewrite <- abs_parent by now apply joinpath_anchored.
    eapply mkdir_is_dir, Hmk.
  - unfold FS.exists_ in Hnew.
    now destruct (FS.lookup d1 (abs P file)).
  - exists d2. split; [exact Hw|]. unfold FS.read. now rewrite Hl.
Qed.

Lemma body_match :
  SHA1.hexdigest data = r_hash r ->
  write_error P d1 (abs P file) data = None ->
  exists d2,
    FS.write d1 (abs P file) data = inr d2 /\
    FS.read d2 (abs P file) = inr data /\
    downloadMods_body P installDir r w =
    (Ok tt, {| fs := d2; out := out w1 ++ [Say FileOK] |}).
Proof.
  intros Heq Hos. destruct write_accepted as (d2 & Hw & Hr).
  exists d2. split; [exact Hw|]. split; [exact Hr|].
  rewrite (body_verified Heq). unfold write_file. now rewrite Hos, Hw.
Qed.

(** The system refuses the file: the run stops after [File OK]. *)
Lemma body_refused e :
  SHA1.hexdigest data = r_hash r ->
  write_error P d1 (abs P file) data = Some (e, None) ->
  downloadMods_body P installDir r w =
  (Stop (SysExit (DownloadFailed (r_url r))),
   {| fs := d1;
      out := out w1 ++ [Say FileOK; Say (Error (DownloadFailed (r_url r)))] |}).
Proof.
  intros Heq Hos. rewrite (body_verified Heq). unfold write_file. now rewrite Hos.
Qed.
End Fetched.

End ScriptFacts.

(** ** The digest is forty lower-case hexadecimal digits *)

Section SHA1Facts.
Import SHA1.

Lemma chars_of_chars l : Str.chars (Str.of_chars l) = l.
Proof. apply list_ascii_of_string_of_list_ascii. Qed.

Lemma hexdigit_in x : In (hexdigit x) (Str.chars hexdigits).
Proof.
  unfold hexdigit. apply nth_In.
  change (List.length (Str.chars hexdigits)) with 16%nat.
  pose proof (Z.mod_pos_bound x 16). lia.
Qed.

Lemma hex_in n x : Forall (fun c => In c (Str.chars hexdigits)) (hex n x).
Proof.
  induction n; simpl; constructor; [apply hexdigit_in | assumption].
Qed.

Lemma hex_length n x : List.length (hex n x) = n.
Proof. induction n; cbn [hex List.length]; congruence. Qed.

Lemma length_of_chars l : String.length (Str.of_chars l) = List.length l.
Proof. induction l; simpl; congruence. Qed.

Lemma hexdigest_chars data :
  Forall (fun c => In c (Str.chars hexdigits)) (Str.chars (hexdigest data)).
Proof.
  unfold hexdigest. destruct (digest data) as [[[[h0 h1] h2] h3] h4].
  rewrite chars_of_chars, !Forall_app. repeat split; apply hex_in.
Qed.

Lemma hexdigest_length data : String.length (hexdigest data) = 40%nat.
Proof.
  unfold hexdigest. destruct (digest data) as [[[[h0 h1] h2] h3] h4].
  rewrite length_of_chars, !length_app, !hex_length. reflexivity.
Qed.

Lemma lower_fixed s :
  Forall (fun c => Str.is_upper c = false) (Str.chars s) -> Str.lower s = s.
Proof.
  induction s as [|c s IH]; simpl; [reflexivity|].
  intros H. inversion H as [|? ? Hc Hs]; subst.
  unfold Str.lower_char. rewrite Hc. f_equal. now apply IH.
Qed.

Lemma hexdigest_lower data : Str.lower (hexdigest data) = hexdigest data.
Proof.
  apply lower_fixed. eapply Forall_impl; [apply hexdigest_chars|].
  intros c Hc. simpl in Hc.
  repeat (destruct Hc as [<-|Hc]; [reflexivity|]). destruct Hc.
Qed.

(** An expected digest with an upper-case letter is not the digest of
    anything. *)
Lemma hexdigest_never_upper data hash :
  Str.lower hash <> hash -> hexdigest data <> hash.
Proof. intros H <-. apply H, hexdigest_lower. Qed.

End SHA1Facts.

(** ** The Download Verifier *)

(** The run on a resource that is fetched and has the wrong digest. *)
Lemma downloadMods_stops_on_mismatch
    (P : Platform) (modpack : Path) (pre post : ResourceList) (r : Resource)
    (w w1 : World) (d1 : dir) (data : bytes) :
  let file := installDir_of P modpack // r_path r in
  downloadMods P modpack pre w = (Ok tt, w1) ->
  FS.mkdir true (fs w1) (abs P (parent file)) = inr d1 ->
  FS.exists_ d1 (abs P file) = false ->
  urlopen P (fetches (out w1)) (r_url r) = Some data ->
  SHA1.hexdigest data <> r_hash r ->
  downloadMods P modpack (pre ++ r :: post) w
  = (Stop (SysExit (HashMismatch (r_path r))),
     {| fs := d1;
        out := out w1 ++ [Say (Downloading (r_url r)); Fetch (r_url r);
                          Say (Sha1 (SHA1.hexdigest data)); Say (Expected (r_hash r));
                          Say (Error (HashMismatch (r_path r)))] |}).
Proof.
  intros file Hpre Hmk Hnew Hfetch Hne.
  rewrite (downloadMods_app P _ _ _ _ _ Hpre).
  apply for_each_stop.
  erewrite body_mismatch; eauto using installDir_anchored.
  cbn [out]. now rewrite <- app_assoc.
Qed.

(** C1.  A resource the verifier reaches and fetches, whose bytes do not
    have the expected SHA-1 digest, stops the run with [HashMismatch] and
    exit status 1, and nothing has been written: the destination still
    does not exist, and the file system is as the creation of the parent
    directory left it. *)
Theorem downloadMods_hash_mismatch
    (P : Platform) (modpack : Path) (pre post : ResourceList) (r : Resource)
    (w w1 : World) (d1 : dir) (data : bytes) :
  let file := installDir_of P modpack // r_path r in
  downloadMods P modpack pre w = (Ok tt, w1) ->
  FS.mkdir true (fs w1) (abs P (parent file)) = inr d1 ->
  FS.exists_ d1 (abs P file) = false ->
  urlopen P (fetches (out w1)) (r_url r) = Some data ->
  SHA1.hexdigest data <> r_hash r ->
  exists w2,
    downloadMods P modpack (pre ++ r :: post) w
    = (Stop (SysExit (HashMismatch (r_path r))), w2)
    /\ exit_status (SysExit (HashMismatch (r_path r))) <> 0%Z
    /\ FS.exists_ (fs w2) (abs P file) = false
    /\ fs w2 = d1
    /\ fetches (out w2) = fetches (out w1) ++ [r_url r].
Proof.
  intros file Hpre Hmk Hnew Hfetch Hne.
  eexists. split.
  - eapply downloadMods_stops_on_mismatch; eauto.
  - cbn [fs out]. repeat split; [discriminate | exact Hnew |].
    rewrite fetches_app. simpl. reflexivity.
Qed.

Lemma downloadMods_hash_mismatch_witness :
  let r := Demo.resource "0000000000000000000000000000000000000000" in
  exists w2,
    downloadMods Demo.platform Demo.modpack ([] ++ r :: []) Demo.empty_world
    = (Stop (SysExit (HashMismatch "mods/mod.jar")), w2)
    /\ exit_status (SysExit (HashMismatch "mods/mod.jar")) <> 0%Z
    /\ FS.exists_ (fs w2) Demo.mod_jar = false
    /\ fs w2 = Demo.tree [("mods", Dir [])]
    /\ fetches (out w2) = [] ++ ["https://cdn.modrinth.com/data/abc/mod.jar"].
Proof.
  apply (downloadMods_hash_mismatch Demo.platform Demo.modpack [] []
           (Demo.resource "0000000000000000000000000000000000000000")
           Demo.empty_world {| fs := Demo.tree []; out := [] |}
           (Demo.tree [("mods", Dir [])]) []).
  - vm_compute. reflexivity.
  - vm_compute. reflexivity.
  - vm_compute. reflexivity.
  - vm_compute. reflexivity.
  - vm_compute. discriminate.
Defined.

(** C2, as the code has it.  The digests are compared as strings,
    character for character.  Bytes whose lower-case hexadecimal digest is
    the expected digest pass the comparison and are written to the
    destination, and the run goes on, when the system lets the file be
    written; when it refuses the file, the run stops with
    [DownloadFailed] and the file is not there.  An expected digest with
    an upper-case letter is never met, and stops the run with
    [HashMismatch] whatever was fetched. *)
Theorem downloadMods_digest_exact
    (P : Platform) (modpack : Path) (pre post : ResourceList) (r : Resource)
    (w w1 : World) (d1 : dir) (data : bytes) :
  let file := installDir_of P modpack // r_path r in
  downloadMods P modpack pre w = (Ok tt, w1) ->
  FS.mkdir true (fs w1) (abs P (parent file)) = inr d1 ->
  FS.exists_ d1 (abs P file) = false ->
  urlopen P (fetches (out w1)) (r_url r) = Some data ->
  (SHA1.hexdigest data = r_hash r ->
   write_error P d1 (abs P file) data = None ->
   exists w2,
     downloadMods P modpack (pre ++ [r]) w = (Ok tt, w2)
     /\ FS.read (fs w2) (abs P file) = inr data
     /\ downloadMods P modpack (pre ++ r :: post) w
        = for_each (downloadMods_body P (installDir_of P modpack)) post w2)
  /\ (SHA1.hexdigest data = r_hash r ->
      forall e, write_error P d1 (abs P file) data = Some (e, None) ->
      exists w2,
        downloadMods P modpack (pre ++ r :: post) w
        = (Stop (SysExit (DownloadFailed (r_url r))), w2)
        /\ In (Say FileOK) (out w2)
        /\ FS.exists_ (fs w2) (abs P file) = false)
  /\ (Str.lower (r_hash r) <> r_hash r ->
      exists w2,
        downloadMods P modpack (pre ++ r :: post) w
        = (Stop (SysExit (HashMismatch (r_path r))), w2)
        /\ FS.exists_ (fs w2) (abs P file) = false).
Proof.
  intros file Hpre Hmk Hnew Hfetch. split; [|split].
  - intros Heq Hos.
    destruct (body_match P (installDir_of P modpack) r w1 d1 data)
      as (d2 & Hw & Hr & Hbody); eauto using installDir_anchored.
    eexists. split; [|split].
    + rewrite (downloadMods_app P _ _ _ _ _ Hpre), for_each_one. exact Hbody.
    + exact Hr.
    + rewrite (downloadMods_app P _ _ _ _ _ Hpre). now apply for_each_step.
  - intros Heq e Hos. eexists. split; [|split].
    + rewrite (downloadMods_app P _ _ _ _ _ Hpre). apply for_each_stop.
      eapply body_refused; eauto using installDir_anchored.
    + cbn [out]. apply in_or_app. right. now left.
    + exact Hnew.
  - intros Hup. eexists. split.
    + eapply downloadMods_stops_on_mismatch; eauto using hexdigest_never_upper.
    + exact Hnew.
Qed.

Lemma downloadMods_digest_exact_witness :
  let r := Demo.resource Demo.sha1_of_nothing in
  exists w2,
    downloadMods Demo.platform Demo.modpack ([] ++ [r]) Demo.empty_world = (Ok tt, w2)
    /\ FS.read (fs w2) Demo.mod_jar = inr []
    /\ downloadMods Demo.platform Demo.modpack ([] ++ r :: []) Demo.empty_world
       = for_each (downloadMods_body Demo.platform
                     (installDir_of Demo.platform Demo.modpack)) [] w2.
Proof.
  apply (downloadMods_digest_exact Demo.platform Demo.modpack [] []
           (Demo.resource Demo.sha1_of_nothing)
           Demo.empty_world {| fs := Demo.tree []; out := [] |}
           (Demo.tree [("mods", Dir [])]) []).
  - vm_compute. reflexivity.
  - vm_compute. reflexivity.
  - vm_compute. reflexivity.
  - vm_compute. reflexivity.
  - vm_compute. reflexivity.
  - vm_compute. reflexivity.
Defined.

(** Equal digests are not enough for the file to be written: the
    platform of the examples refuses a name with a NUL character, and the
    run stops with [DownloadFailed] after [File OK]. *)
Example downloadMods_refused_name :
  let r := {| r_url := Demo.good_url;
              r_path := String "m" (String "000" ".jar");
              r_hash := Demo.sha1_of_nothing |} in
  let run := downloadMods Demo.platform Demo.modpack [r] Demo.empty_world in
  SHA1.hexdigest [] = r_hash r
  /\ fst run = Stop (SysExit (DownloadFailed Demo.good_url))
  /\ In (Say FileOK) (out (snd run))
  /\ fs (snd run) = Demo.tree [].
Proof. vm_compute. intuition. Qed.

(** C2 as the spec states it fails: the empty byte sequence has the digest
    [da39a3ee...], which agrees with the expected [DA39A3EE...] up to the
    case of the letters, and the run stops with [HashMismatch] without
    writing the file. *)
Lemma digest_comparison_is_case_sensitive :
  let r := Demo.resource "DA39A3EE5E6B4B0D3255BFEF95601890AFD80709" in
  let run := downloadMods Demo.platform Demo.modpack [r] Demo.empty_world in
  urlopen Demo.platform [] (r_url r) = Some []
  /\ Str.lower (SHA1.hexdigest []) = Str.lower (r_hash r)
  /\ fst run = Stop (SysExit (HashMismatch "mods/mod.jar"))
  /\ FS.exists_ (fs (snd run)) Demo.mod_jar = false.
Proof. vm_compute. repeat split. Qed.

(** C5.  A resource whose destination exists when the verifier reaches
    it is skipped: the run goes on, the file system is unchanged, and the
    only event is the message that the file is skipped; nothing is
    fetched and no digest is computed. *)
Theorem downloadMods_skips_existing
    (P : Platform) (modpack : Path) (pre post : ResourceList) (r : Resource)
    (w w1 : World) :
  let file := installDir_of P modpack // r_path r in
  downloadMods P modpack pre w = (Ok tt, w1) ->
  FS.exists_ (fs w1) (abs P file) = true ->
  exists w2,
    downloadMods P modpack (pre ++ [r]) w = (Ok tt, w2)
    /\ downloadMods P modpack (pre ++ r :: post) w
       = for_each (downloadMods_body P (installDir_of P modpack)) post w2
    /\ fs w2 = fs w1
    /\ out w2 = out w1 ++ [Say (SkippingFile (r_path r))]
    /\ fetches (out w2) = fetches (out w1).
Proof.
  intros file Hpre Hex.
  pose proof (body_skip P _ r w1 (installDir_anchored P modpack) Hex) as Hbody.
  eexists. split; [|split; [|split; [|split]]].
  - rewrite (downloadMods_app P _ _ _ _ _ Hpre), for_each_one. exact Hbody.
  - rewrite (downloadMods_app P _ _ _ _ _ Hpre). now apply for_each_step.
  - reflexivity.
  - reflexivity.
  - apply fetches_app_print.
Qed.

Lemma downloadMods_skips_existing_witness :
  let r := Demo.resource "0000000000000000000000000000000000000000" in
  let w := {| fs := Demo.tree [("mods", Dir [("mod.jar", File [x41])])]; out := [] |} in
  exists w2,
    downloadMods Demo.platform Demo.modpack ([] ++ [r]) w = (Ok tt, w2)
    /\ downloadMods Demo.platform Demo.modpack ([] ++ r :: []) w
       = for_each (downloadMods_body Demo.platform
                     (installDir_of Demo.platform Demo.modpack)) [] w2
    /\ fs w2 = fs w
    /\ out w2 = out w ++ [Say (SkippingFile "mods/mod.jar")]
    /\ fetches (out w2) = fetches (out w).
Proof.
  intros r w.
  apply (downloadMods_skips_existing Demo.platform Demo.modpack [] [] r w w).
  - vm_compute. reflexivity.
  - vm_compute. reflexivity.
Defined.

(** ** What a computation leaves alone *)

Section Stable.
Context {X : Type} (f : World -> X).

Lemma stable_ret {A} (a : A) : stable f (ret a).
Proof. intros w r w' [= _ <-]. reflexivity. Qed.

Lemma stable_raise {A} e : stable f (@raise A e).
Proof. intros w r w' [= _ <-]. reflexivity. Qed.

Lemma stable_lift {A} (x : Exn + A) : stable f (lift x).
Proof. destruct x; [apply stable_raise | apply stable_ret]. Qed.

Lemma stable_bind {A B} (m : M A) (k : A -> M B) :
  stable f m -> (forall a, stable f (k a)) -> stable f (bind m k).
Proof.
  intros Hm Hk w r w'. unfold bind.
  destruct (m w) as [[a|h] w1] eqn:E.
  - intros H. rewrite (Hk _ _ _ _ H). eapply Hm, E.
  - intros [= _ <-]. eapply Hm, E.
Qed.

Lemma stable_get_fs : stable f get_fs.
Proof. intros w r w' [= _ <-]. reflexivity. Qed.

Lemma stable_if {A} (b : bool) (m1 m2 : M A) :
  stable f m1 -> stable f m2 -> stable f (if b then m1 else m2).
Proof. now destruct b. Qed.
End Stable.

Lemma fetches_app_other evs e :
  match e with Fetch _ => False | _ => True end -> fetches (evs ++ [e]) = fetches evs.
Proof. intros H. rewrite fetches_app. destruct e; simpl; [|tauto|]; apply app_nil_r. Qed.

Lemma fetched_log e :
  match e with Fetch _ => False | _ => True end -> stable fetched (log e).
Proof. intros H w r w' [= _ <-]. now apply fetches_app_other. Qed.

Lemma fetched_print m : stable fetched (print m).
Proof. now apply fetched_log. Qed.

Lemma fetched_die {A} why : stable fetched (@die A why).
Proof. intros w r w' [= _ <-]. apply fetches_app_print. Qed.

Lemma fetched_put_fs d : stable fetched (put_fs d).
Proof. intros w r w' [= _ <-]. reflexivity. Qed.

Lemma fs_print m : stable fs (print m).
Proof. intros w r w' [= _ <-]. reflexivity. Qed.

Lemma fs_die {A} why : stable fs (@die A why).
Proof. intros w r w' [= _ <-]. reflexivity. Qed.

Create HintDb stable.

#[local] Hint Resolve stable_ret stable_raise stable_lift stable_get_fs
  fetched_print fetched_die fetched_put_fs fs_print fs_die : stable.

Ltac stable_steps :=
  repeat first
    [ progress auto with stable
    | apply stable_bind; [|intros ?]
    | apply stable_if
    | apply fetched_log; exact I ].

Section Quiet.
Context (P : Platform).

Lemma fetched_path_exists p : stable fetched (path_exists P p).
Proof. intros w r w' [= _ <-]. reflexivity. Qed.

Lemma fetched_path_is_zipfile p : stable fetched (path_is_zipfile P p).
Proof. intros w r w' [= _ <-]. reflexivity. Qed.

Lemma fetched_mkdir ok p : stable fetched (mkdir P ok p).
Proof. unfold mkdir. stable_steps. Qed.

Lemma fetched_zip_extractall modpack target :
  stable fetched (zip_extractall P modpack target).
Proof.
  unfold zip_extractall. stable_steps.
  destruct (extractall P _ _ _) as [[e d']|d']; stable_steps.
Qed.

Hint Resolve fetched_path_exists fetched_path_is_zipfile fetched_mkdir
  fetched_zip_extractall : stable.

(** The Archive Loader opens no URL. *)
Lemma fetched_loadModpack modpack : stable fetched (loadModpack P modpack).
Proof.
  unfold loadModpack, loadModpack_extract, loadModpack_index,
    loadModpack_version, load_json.
  stable_steps.
Qed.

(** The Resource Resolver opens no URL and leaves the file system as it
    is, whether it ends well or not. *)
Lemma fetched_getMods_body e : stable fetched (getMods_body P e).
Proof. unfold getMods_body. stable_steps. Qed.

Lemma fs_getMods_body e : stable fs (getMods_body P e).
Proof. unfold getMods_body. stable_steps. Qed.

Lemma stable_getMods_loop {X} (f : World -> X) files acc :
  (forall e, stable f (getMods_body P e)) -> stable f (getMods_loop P files acc).
Proof.
  intros Hb. revert acc. induction files as [|e files IH]; intros acc; simpl.
  - apply stable_ret.
  - apply stable_bind; [apply Hb | intros r; apply IH].
Qed.

Lemma fetched_getMods m : stable fetched (getMods P m).
Proof. apply stable_getMods_loop, fetched_getMods_body. Qed.

Lemma fs_getMods m : stable fs (getMods P m).
Proof. apply stable_getMods_loop, fs_getMods_body. Qed.

End Quiet.

(** ** The Resource Resolver *)

Lemma accepted_In domain : accepted domain = true <-> In domain ACCEPTED_DOMAINS.
Proof.
  unfold accepted. rewrite existsb_exists. split.
  - intros (a & Ha & E). apply String.eqb_eq in E. now subst.
  - intros H. exists domain. split; [exact H | apply String.eqb_refl].
Qed.

(** An allow-listed name has no bracket and is ASCII, so [urlparse] takes it
    whatever the platform; and it is its own host name. *)
Lemma netloc_of_accepted P u :
  accepted (Url.raw_netloc u) = true -> Url.netloc P u = inr (Url.raw_netloc u).
Proof.
  intros H. apply accepted_In in H. unfold Url.netloc.
  simpl in H. destruct H as [<-|[<-|[<-|[<-|[]]]]]; reflexivity.
Qed.

Lemma hostname_of_accepted n : accepted n = true -> Url.hostname n = Some n.
Proof.
  intros H. apply accepted_In in H.
  simpl in H. destruct H as [<-|[<-|[<-|[<-|[]]]]]; reflexivity.
Qed.

Lemma netloc_ok_raw P u n : Url.netloc P u = inr n -> n = Url.raw_netloc u.
Proof.
  unfold Url.netloc.
  repeat match goal with |- context [if ?b then _ else _] => destruct b end;
    congruence.
Qed.

(** The allow-listed names have no port, no userinfo and no upper-case
    letter: a netloc with one of these is off the allow-list. *)
Lemma accepted_plain n :
  accepted n = true ->
  Str.mem ":" n = false /\ Str.mem "@" n = false /\ Str.lower n = n.
Proof.
  intros H. apply accepted_In in H.
  simpl in H. destruct H as [<-|[<-|[<-|[<-|[]]]]]; repeat split.
Qed.

(** A host off the allow-list means a netloc off the allow-list. *)
Lemma host_not_allowed e : host_allowed e = false -> netloc_allowed e = false.
Proof.
  unfold host_allowed, netloc_allowed. destruct (downloads e) as [|u us]; [reflexivity|].
  destruct (accepted (Url.raw_netloc u)) eqn:E; [|reflexivity].
  now rewrite (hostname_of_accepted _ E), E.
Qed.

Section Resolver.
Context (P : Platform).

Lemma getMods_body_accepts e u us h w :
  downloads e = u :: us -> hashes e !! "sha1" = Some h ->
  accepted (Url.raw_netloc u) = true ->
  getMods_body P e w = (Ok {| r_url := u; r_path := path e; r_hash := h |}, w).
Proof.
  intros Hu Hh Ha. unfold getMods_body. rewrite Hu, Hh.
  unfold lift at 1 2, bind at 1 2, ret at 1 2. cbv beta iota.
  rewrite (netloc_of_accepted P _ Ha). unfold lift, bind, ret.
  fold (accepted (Url.raw_netloc u)). now rewrite Ha.
Qed.

Lemma getMods_body_rejects e u us h n w :
  downloads e = u :: us -> hashes e !! "sha1" = Some h ->
  Url.netloc P u = inr n -> accepted n = false ->
  getMods_body P e w =
  (Stop (SysExit (UnapprovedDomain n)),
   {| fs := fs w; out := out w ++ [Say (Error (UnapprovedDomain n))] |}).
Proof.
  intros Hu Hh Hn Ha. unfold getMods_body. rewrite Hu, Hh.
  unfold lift at 1 2, bind at 1 2, ret at 1 2. cbv beta iota.
  rewrite Hn. unfold lift, bind, ret. fold (accepted n). now rewrite Ha.
Qed.

Lemma getMods_loop_app l1 l2 acc w :
  getMods_loop P (l1 ++ l2) acc w =
  match getMods_loop P l1 acc w with
  | (Ok rs, w1) => getMods_loop P l2 rs w1
  | (Stop h, w1) => (Stop h, w1)
  end.
Proof.
  revert acc w. induction l1 as [|e l1 IH]; intros acc w; simpl; [reflexivity|].
  unfold bind. destruct (getMods_body P e w) as [[r|h] w1]; [apply IH | reflexivity].
Qed.

(** The resolver only writes to the log when it stops. *)
Lemma getMods_body_ok_world e r w w' : getMods_body P e w = (Ok r, w') -> w' = w.
Proof.
  unfold getMods_body, bind, lift, ret, raise, die.
  destruct (downloads e) as [|u us]; [discriminate|].
  destruct (hashes e !! "sha1") as [h|]; [|discriminate].
  cbv beta iota.
  destruct (Url.netloc P u) as [x|n]; [discriminate|].
  destruct (negb (existsb (String.eqb n) ACCEPTED_DOMAINS)); [discriminate|].
  now intros [= _ <-].
Qed.

Lemma getMods_loop_ok_world files acc rs w w' :
  getMods_loop P files acc w = (Ok rs, w') -> w' = w.
Proof.
  revert acc w. induction files as [|e files IH]; intros acc w; simpl.
  - now intros [= _ <-].
  - unfold bind. destruct (getMods_body P e w) as [[r|h] w1] eqn:E; [|discriminate].
    intros H. apply IH in H. apply getMods_body_ok_world in E. congruence.
Qed.

Lemma getMods_loop_resolves files acc w :
  Forall (fun e => entry_wf P e = true /\ netloc_allowed e = true) files ->
  exists rs,
    getMods_loop P files acc w = (Ok (acc ++ rs), w) /\ Forall2 resolves_to files rs.
Proof.
  intros H. revert acc. induction H as [|e files [Hwf Hal] _ IH]; intros acc.
  - exists []. simpl. rewrite app_nil_r. split; [reflexivity | constructor].
  - unfold entry_wf in Hwf. unfold netloc_allowed in Hal.
    destruct (downloads e) as [|u us] eqn:Hu; [discriminate|].
    destruct (hashes e !! "sha1") as [h|] eqn:Hh; [|discriminate].
    destruct (IH (acc ++ [{| r_url := u; r_path := path e; r_hash := h |}]))
      as (rs & Hrs & Hall).
    exists ({| r_url := u; r_path := path e; r_hash := h |} :: rs). split.
    + simpl. erewrite bind_ok by (eapply getMods_body_accepts; eauto).
      rewrite Hrs. now rewrite <- app_assoc.
    + constructor; [|exact Hall]. unfold resolves_to. now rewrite Hu, Hh.
Qed.

Lemma getMods_loop_rejects files acc w :
  forallb (entry_wf P) files = true ->
  existsb (fun e => negb (netloc_allowed e)) files = true ->
  exists domain,
    accepted domain = false /\
    getMods_loop P files acc w =
    (Stop (SysExit (UnapprovedDomain domain)),
     {| fs := fs w; out := out w ++ [Say (Error (UnapprovedDomain domain))] |}).
Proof.
  revert acc. induction files as [|e files IH]; intros acc Hwf Hbad; [discriminate|].
  simpl in Hwf, Hbad. apply andb_true_iff in Hwf as [Hwf Hwfs].
  pose proof Hwf as Hwf'. unfold entry_wf in Hwf'.
  destruct (downloads e) as [|u us] eqn:Hu; [discriminate|].
  destruct (hashes e !! "sha1") as [h|] eqn:Hh; [|discriminate].
  destruct (Url.netloc P u) as [x|n] eqn:Hn; [discriminate|].
  pose proof (netloc_ok_raw _ _ _ Hn) as ->.
  destruct (accepted (Url.raw_netloc u)) eqn:Ha.
  - unfold netloc_allowed in Hbad at 1. rewrite Hu, Ha in Hbad. simpl in Hbad.
    destruct (IH (acc ++ [{| r_url := u; r_path := path e; r_hash := h |}]) Hwfs Hbad)
      as (domain & Hd & Hrun).
    exists domain. split; [exact Hd|].
    simpl. erewrite bind_ok by (eapply getMods_body_accepts; eauto). exact Hrun.
  - exists (Url.raw_netloc u). split; [exact Ha|].
    simpl. erewrite bind_stop; [reflexivity|].
    eapply getMods_body_rejects; eauto.
Qed.

End Resolver.

(** ** Computations that only print *)

Section PrintsOnly.

Lemma prints_only_ret {A} (a : A) : prints_only (ret a).
Proof. intros w r w' [= _ <-]. split; [reflexivity|]. exists []. now rewrite app_nil_r. Qed.

Lemma prints_only_raise {A} e : prints_only (@raise A e).
Proof. intros w r w' [= _ <-]. split; [reflexivity|]. exists []. now rewrite app_nil_r. Qed.

Lemma prints_only_lift {A} (x : Exn + A) : prints_only (lift x).
Proof. destruct x; [apply prints_only_raise | apply prints_only_ret]. Qed.

Lemma prints_only_get_fs : prints_only get_fs.
Proof. intros w r w' [= _ <-]. split; [reflexivity|]. exists []. now rewrite app_nil_r. Qed.

Lemma prints_only_print m : prints_only (print m).
Proof. intros w r w' [= _ <-]. split; [reflexivity|]. now exists [m]. Qed.

Lemma prints_only_die {A} why : prints_only (@die A why).
Proof. intros w r w' [= _ <-]. split; [reflexivity|]. now exists [Error why]. Qed.

Lemma prints_only_bind {A B} (m : M A) (k : A -> M B) :
  prints_only m -> (forall a, prints_only (k a)) -> prints_only (bind m k).
Proof.
  intros Hm Hk w r w'. unfold bind.
  destruct (m w) as [[a|h] w1] eqn:E.
  - intros H. destruct (Hm _ _ _ E) as (Hfs1 & l1 & Ho1).
    destruct (Hk _ _ _ _ H) as (Hfs2 & l2 & Ho2).
    split; [congruence|]. exists (l1 ++ l2).
    now rewrite Ho2, Ho1, map_app, app_assoc.
  - intros [= <- <-]. eapply Hm, E.
Qed.

Lemma prints_only_if {A} (b : bool) (m1 m2 : M A) :
  prints_only m1 -> prints_only m2 -> prints_only (if b then m1 else m2).
Proof. now destruct b. Qed.

Lemma fetches_prints evs msgs : fetches (evs ++ map Say msgs) = fetches evs.
Proof.
  rewrite fetches_app. induction msgs; simpl in *; [apply app_nil_r | assumption].
Qed.

Lemma extractions_prints evs msgs :
  extractions (evs ++ map Say msgs) = extractions evs.
Proof.
  unfold extractions. rewrite List.filter_app, length_app.
  induction msgs; simpl in *; [lia | assumption].
Qed.

End PrintsOnly.

Create HintDb prints.

#[local] Hint Resolve prints_only_ret prints_only_raise prints_only_lift
  prints_only_get_fs prints_only_print prints_only_die : prints.

Ltac prints_steps :=
  repeat first
    [ progress auto with prints
    | apply prints_only_bind; [|intros ?]
    | apply prints_only_if ].

Section LoaderFacts.
Context (P : Platform).

Lemma prints_only_path_exists p : prints_only (path_exists P p).
Proof. intros w r w' [= _ <-]. split; [reflexivity|]. exists []. now rewrite app_nil_r. Qed.

Lemma prints_only_load_json p : prints_only (load_json P p).
Proof. unfold load_json. prints_steps. Qed.

Hint Resolve prints_only_path_exists prints_only_load_json : prints.

Lemma prints_only_index modpack modpack_dir :
  prints_only (loadModpack_index P modpack modpack_dir).
Proof. unfold loadModpack_index. prints_steps. Qed.

Lemma prints_only_version data : prints_only (loadModpack_version data).
Proof. unfold loadModpack_version. prints_steps. Qed.

(** How the first step of the loader goes when the target directory is
    there: the archive is looked at, nothing is extracted. *)
Lemma extract_when_present modpack w :
  FS.exists_ (fs w) (abs P (modpack_dir_of P modpack)) = true ->
  loadModpack_extract P modpack w =
  if negb (FS.exists_ (fs w) (abs P modpack)) then die (NotFound modpack) w
  else if negb (match FS.read (fs w) (abs P modpack) with
                | inr x => is_zipfile P x
                | inl _ => false
                end)
  then die (InvalidArchive modpack) w
  else (Ok (modpack_dir_of P modpack),
        {| fs := fs w; out := out w ++ [Say SkippingExtract] |}).
Proof.
  intros Hdir. unfold loadModpack_extract, bind, path_exists, path_is_zipfile.
  destruct (negb (FS.exists_ (fs w) (abs P modpack))); [reflexivity|].
  destruct (negb _); [reflexivity|].
  rewrite Hdir. reflexivity.
Qed.

Lemma prints_only_extract_when_present modpack w r w' :
  FS.exists_ (fs w) (abs P (modpack_dir_of P modpack)) = true ->
  loadModpack_extract P modpack w = (r, w') ->
  fs w' = fs w /\ exists msgs, out w' = out w ++ map Say msgs.
Proof.
  intros Hdir. rewrite (extract_when_present _ _ Hdir).
  destruct (negb (FS.exists_ (fs w) (abs P modpack))); [apply prints_only_die|].
  destruct (negb _); [apply prints_only_die|].
  intros [= _ <-]. split; [reflexivity|]. now exists [SkippingExtract].
Qed.

End LoaderFacts.

(** C4, as the code has it.  When the netloc of every entry's first
    download URL is, as a string, one of the allow-listed names (and every
    entry has a SHA-1 hash), resolution gives one resource per entry, in
    the order of the manifest: the first URL, the path and the SHA-1 hash
    of the entry, as they are. *)
Theorem getMods_resolves_allowed_netlocs (P : Platform) (m : Manifest) (w : World) :
  Forall (fun e => netloc_allowed e = true /\ is_Some (hashes e !! "sha1")) (files m) ->
  exists rs,
    getMods P m w = (Ok rs, w)
    /\ List.length rs = List.length (files m)
    /\ Forall2 resolves_to (files m) rs.
Proof.
  intros H.
  destruct (getMods_loop_resolves P (files m) [] w) as (rs & Hrun & Hall).
  - eapply Forall_impl; [exact H|]. intros e [Hal [h Hh]]. split; [|exact Hal].
    unfold entry_wf, netloc_allowed in *.
    destruct (downloads e) as [|u us]; [discriminate|].
    now rewrite Hh, (netloc_of_accepted P _ Hal).
  - exists rs. split; [exact Hrun|]. split; [|exact Hall].
    symmetry. eapply Forall2_length, Hall.
Qed.

Lemma getMods_resolves_allowed_netlocs_witness :
  exists rs,
    getMods Demo.platform Demo.manifest1 Demo.empty_world = (Ok rs, Demo.empty_world)
    /\ List.length rs = List.length (files Demo.manifest1)
    /\ Forall2 resolves_to (files Demo.manifest1) rs.
Proof.
  apply (getMods_resolves_allowed_netlocs Demo.platform Demo.manifest1 Demo.empty_world).
  repeat constructor. vm_compute. eexists. reflexivity.
Defined.

(** C4 as the spec states it fails: the host of
    [https://cdn.modrinth.com:443/...] is the allow-listed
    [cdn.modrinth.com], and the resolution of a version-1 manifest with
    this one entry stops with [UnapprovedDomain]. *)
Lemma allowed_host_with_port_is_rejected :
  let m := {| formatVersion := 1;
              files := [Demo.entry "https://cdn.modrinth.com:443/data/abc/mod.jar"
                                   Demo.sha1_of_nothing] |} in
  formatVersion m = 1%Z
  /\ forallb host_allowed (files m) = true
  /\ forallb (entry_wf Demo.platform) (files m) = true
  /\ fst (getMods Demo.platform m Demo.empty_world)
     = Stop (SysExit (UnapprovedDomain "cdn.modrinth.com:443")).
Proof. vm_compute. repeat split. Qed.

(** C10.  The allow-list is checked by equality of strings on the whole
    netloc.  An entry reached by the resolver whose first URL has a netloc
    that is not, character for character, one of the allow-listed names
    stops the resolution with [UnapprovedDomain], whatever the host in that
    netloc is. *)
Theorem getMods_netloc_exact
    (P : Platform) (v : Z) (pre post : list FileEntry) (e : FileEntry)
    (u : string) (us : list string) (h n : string) (rs : ResourceList) (w w' : World) :
  getMods P {| formatVersion := v; files := pre |} w = (Ok rs, w') ->
  downloads e = u :: us ->
  hashes e !! "sha1" = Some h ->
  Url.netloc P u = inr n ->
  ~ In n ACCEPTED_DOMAINS ->
  getMods P {| formatVersion := v; files := pre ++ e :: post |} w
  = (Stop (SysExit (UnapprovedDomain n)),
     {| fs := fs w; out := out w ++ [Say (Error (UnapprovedDomain n))] |}).
Proof.
  unfold getMods. cbn [files]. intros Hpre Hu Hh Hn Hout.
  pose proof (getMods_loop_ok_world _ _ _ _ _ _ Hpre) as ->.
  rewrite getMods_loop_app, Hpre. cbn [getMods_loop].
  apply bind_stop. eapply getMods_body_rejects; eauto.
  destruct (accepted n) eqn:E; [|reflexivity].
  now apply accepted_In in E.
Qed.

Lemma getMods_netloc_exact_witness :
  Url.hostname "cdn.modrinth.com:443" = Some "cdn.modrinth.com"
  /\ In "cdn.modrinth.com" ACCEPTED_DOMAINS
  /\ getMods Demo.platform
       {| formatVersion := 1;
          files := files Demo.manifest1
                   ++ Demo.entry "https://cdn.modrinth.com:443/data/abc/mod.jar"
                                 Demo.sha1_of_nothing :: files Demo.manifest1 |}
       Demo.empty_world
     = (Stop (SysExit (UnapprovedDomain "cdn.modrinth.com:443")),
        {| fs := fs Demo.empty_world;
           out := out Demo.empty_world
                  ++ [Say (Error (UnapprovedDomain "cdn.modrinth.com:443"))] |}).
Proof.
  split; [reflexivity|]. split; [simpl; tauto|].
  apply (getMods_netloc_exact Demo.platform 1 (files Demo.manifest1)
           (files Demo.manifest1)
           (Demo.entry "https://cdn.modrinth.com:443/data/abc/mod.jar"
                       Demo.sha1_of_nothing)
           "https://cdn.modrinth.com:443/data/abc/mod.jar" []
           Demo.sha1_of_nothing "cdn.modrinth.com:443"
           [Demo.resource Demo.sha1_of_nothing] Demo.empty_world Demo.empty_world).
  - vm_compute. reflexivity.
  - reflexivity.
  - vm_compute. reflexivity.
  - vm_compute. reflexivity.
  - vm_compute. intuition discriminate.
Defined.

(** Userinfo and letter case are not looked through either. *)
Example getMods_rejects_userinfo :
  fst (getMods Demo.platform
         {| formatVersion := 1;
            files := [Demo.entry "https://user:pw@github.com/a/b" Demo.sha1_of_nothing] |}
         Demo.empty_world)
  = Stop (SysExit (UnapprovedDomain "user:pw@github.com")).
Proof. vm_compute. reflexivity. Qed.

Example getMods_rejects_upper_case :
  fst (getMods Demo.platform
         {| formatVersion := 1;
            files := [Demo.entry "https://GitHub.com/a/b" Demo.sha1_of_nothing] |}
         Demo.empty_world)
  = Stop (SysExit (UnapprovedDomain "GitHub.com")).
Proof. vm_compute. reflexivity. Qed.

(** ** The whole run *)

Section MainFacts.
Context (P : Platform).

Lemma main_unfold user w :
  main P user w =
  (do_ startup P;
   do index <- loadModpack P (modpack_of_input user);
   do resources <- getMods P index;
   do_ downloadMods P (modpack_of_input user) resources;
   do_ copyOverrides P (modpack_of_input user);
   print Done) w.
Proof. reflexivity. Qed.

Lemma fetched_startup : stable fetched (startup P).
Proof.
  unfold startup. apply stable_bind; [apply fetched_print|].
  intros _. apply fetched_mkdir.
Qed.

(** When the loader stops, so does the run, there and then. *)
Lemma main_stops_in_loader user w w0 h w1 :
  startup P w = (Ok tt, w0) ->
  loadModpack P (modpack_of_input user) w0 = (Stop h, w1) ->
  main P user w = (Stop h, w1).
Proof.
  intros H0 H1. rewrite main_unfold.
  rewrite (bind_ok _ _ _ _ _ H0). now apply bind_stop.
Qed.

(** When the resolver stops, so does the run, there and then. *)
Lemma main_stops_in_resolver user w w0 m w1 h w2 :
  startup P w = (Ok tt, w0) ->
  loadModpack P (modpack_of_input user) w0 = (Ok m, w1) ->
  getMods P m w1 = (Stop h, w2) ->
  main P user w = (Stop h, w2).
Proof.
  intros H0 H1 H2. rewrite main_unfold.
  rewrite (bind_ok _ _ _ _ _ H0), (bind_ok _ _ _ _ _ H1). now apply bind_stop.
Qed.

End MainFacts.

(** Whatever the rest of the manifest looks like, the resolver never ends
    well on a manifest with an entry whose netloc is off the allow-list:
    the run stops in it, by the exit of the domain check or by an exception
    of an earlier, unreadable entry, and no URL has been opened. *)
Lemma getMods_body_ok_allowed P e r w w' :
  getMods_body P e w = (Ok r, w') -> netloc_allowed e = true.
Proof.
  unfold getMods_body, netloc_allowed, bind, lift, ret, raise, die.
  destruct (downloads e) as [|u us]; [discriminate|].
  destruct (hashes e !! "sha1") as [h|]; [|discriminate].
  cbv beta iota.
  destruct (Url.netloc P u) as [x|n] eqn:Hn; [discriminate|].
  pose proof (netloc_ok_raw _ _ _ Hn) as <-.
  fold (accepted n). now destruct (accepted n).
Qed.

Lemma getMods_loop_stops P files acc w :
  existsb (fun e => negb (netloc_allowed e)) files = true ->
  exists h w', getMods_loop P files acc w = (Stop h, w').
Proof.
  revert acc w. induction files as [|e files IH]; intros acc w Hbad; [discriminate|].
  simpl in *. unfold bind.
  destruct (getMods_body P e w) as [[r|h] w1] eqn:E; [|eauto].
  rewrite (getMods_body_ok_allowed _ _ _ _ _ E) in Hbad. now apply IH.
Qed.

Lemma main_bad_host_never_fetches P user w w0 w1 m :
  startup P w = (Ok tt, w0) ->
  loadModpack P (modpack_of_input user) w0 = (Ok m, w1) ->
  existsb (fun e => negb (host_allowed e)) (files m) = true ->
  exists h w2,
    main P user w = (Stop h, w2)
    /\ getMods P m w1 = (Stop h, w2)
    /\ fetches (out w2) = fetches (out w)
    /\ fs w2 = fs w1.
Proof.
  intros H0 H1 Hbad.
  destruct (getMods_loop_stops P (files m) [] w1) as (h & w2 & Hrun).
  - rewrite existsb_exists in *. destruct Hbad as (e & He & Hhost).
    exists e. split; [exact He|].
    apply negb_true_iff in Hhost. apply negb_true_iff. now apply host_not_allowed.
  - exists h, w2. split; [|split; [exact Hrun|split]].
    + eapply main_stops_in_resolver; eauto.
    + change (fetched w2 = fetched w).
      rewrite (fetched_getMods P _ _ _ _ Hrun), (fetched_loadModpack P _ _ _ _ H1).
      apply (fetched_startup P _ _ _ H0).
    + apply (fs_getMods P _ _ _ _ Hrun).
Qed.

(** C3.  A manifest with an entry whose first download URL has a host off
    the allow-list stops the run with [UnapprovedDomain], in the resolver,
    and no URL has been opened by then: the fetches of the run are those
    made before it started, and the file system is as the loader left
    it.  The manifest is one the resolver can read: every entry has a first
    URL that [urlparse] takes and a SHA-1 hash. *)
Theorem main_unapproved_domain_before_any_fetch
    (P : Platform) (user : string) (w w0 w1 : World) (m : Manifest) :
  startup P w = (Ok tt, w0) ->
  loadModpack P (modpack_of_input user) w0 = (Ok m, w1) ->
  forallb (entry_wf P) (files m) = true ->
  existsb (fun e => negb (host_allowed e)) (files m) = true ->
  exists domain w2,
    main P user w = (Stop (SysExit (UnapprovedDomain domain)), w2)
    /\ getMods P m w1 = (Stop (SysExit (UnapprovedDomain domain)), w2)
    /\ accepted domain = false
    /\ fetches (out w2) = fetches (out w)
    /\ fs w2 = fs w1.
Proof.
  intros H0 H1 Hwf Hbad.
  destruct (getMods_loop_rejects P (files m) [] w1 Hwf) as (domain & Hd & Hrun).
  - rewrite existsb_exists in *. destruct Hbad as (e & He & Hhost).
    exists e. split; [exact He|].
    apply negb_true_iff in Hhost. apply negb_true_iff. now apply host_not_allowed.
  - exists domain. eexists. split; [|split; [exact Hrun|split; [exact Hd|split]]].
    + eapply main_stops_in_resolver; eauto.
    + cbn [out]. rewrite fetches_app_print.
      change (fetched w1 = fetched w).
      rewrite (fetched_loadModpack P _ _ _ _ H1). apply (fetched_startup P _ _ _ H0).
    + reflexivity.
Qed.

Lemma main_unapproved_domain_before_any_fetch_witness :
  exists domain w2,
    main Demo.platform " 'Pack.zip' " (Demo.world "PK3")
    = (Stop (SysExit (UnapprovedDomain domain)), w2)
    /\ getMods Demo.platform Demo.manifest3 (Demo.loaded "PK3")
       = (Stop (SysExit (UnapprovedDomain domain)), w2)
    /\ accepted domain = false
    /\ fetches (out w2) = fetches (out (Demo.world "PK3"))
    /\ fs w2 = fs (Demo.loaded "PK3").
Proof.
  apply (main_unapproved_domain_before_any_fetch Demo.platform " 'Pack.zip' "
           (Demo.world "PK3") (Demo.started "PK3") (Demo.loaded "PK3") Demo.manifest3).
  - vm_compute. reflexivity.
  - vm_compute. reflexivity.
  - vm_compute. reflexivity.
  - vm_compute. reflexivity.
Defined.

(** C7.  A manifest whose format version is not 1 stops the loader, and
    with it the run, with [UnsupportedVersion] and exit status 1.  The run
    ends in the world the loader leaves: the resolver and the verifier
    have not run, and no URL has been opened. *)
Theorem main_unsupported_version
    (P : Platform) (user : string) (w w0 w1 w2 : World) (modpack_dir : Path)
    (m : Manifest) :
  let modpack := modpack_of_input user in
  let stop := SysExit (UnsupportedVersion (formatVersion m)) in
  let w3 := {| fs := fs w2;
               out := out w2 ++ [Say (Error (UnsupportedVersion (formatVersion m)))] |} in
  startup P w = (Ok tt, w0) ->
  loadModpack_extract P modpack w0 = (Ok modpack_dir, w1) ->
  loadModpack_index P modpack modpack_dir w1 = (Ok m, w2) ->
  formatVersion m <> 1%Z ->
  loadModpack P modpack w0 = (Stop stop, w3)
  /\ main P user w = (Stop stop, w3)
  /\ exit_status stop <> 0%Z
  /\ fetches (out w3) = fetches (out w).
Proof.
  intros modpack stop w3 H0 H1 H2 Hv.
  assert (loadModpack P modpack w0 = (Stop stop, w3)) as Hload.
  { unfold loadModpack.
    rewrite (bind_ok _ _ _ _ _ H1), (bind_ok _ _ _ _ _ H2).
    unfold loadModpack_version. apply Z.eqb_neq in Hv. now rewrite Hv. }
  split; [exact Hload|]. split; [|split; [discriminate|]].
  - eapply main_stops_in_loader; eauto.
  - change (fetched w3 = fetched w).
    rewrite (fetched_loadModpack P _ _ _ _ Hload). apply (fetched_startup P _ _ _ H0).
Qed.

Lemma main_unsupported_version_witness :
  let stop := SysExit (UnsupportedVersion 2) in
  let w3 := {| fs := fs (Demo.indexed "PK2");
               out := out (Demo.indexed "PK2") ++ [Say (Error (UnsupportedVersion 2))] |} in
  loadModpack Demo.platform Demo.modpack (Demo.started "PK2") = (Stop stop, w3)
  /\ main Demo.platform " 'Pack.zip' " (Demo.world "PK2") = (Stop stop, w3)
  /\ exit_status stop <> 0%Z
  /\ fetches (out w3) = fetches (out (Demo.world "PK2")).
Proof.
  apply (main_unsupported_version Demo.platform " 'Pack.zip' "
           (Demo.world "PK2") (Demo.started "PK2") (Demo.extracted "PK2")
           (Demo.indexed "PK2") (modpack_dir_of Demo.platform Demo.modpack)
           Demo.manifest2).
  - vm_compute. reflexivity.
  - vm_compute. reflexivity.
  - vm_compute. reflexivity.
  - vm_compute. discriminate.
Defined.

(** ** The Archive Loader *)

Lemma prints_only_after_extract P modpack :
  prints_only (do data <- loadModpack_index P modpack (modpack_dir_of P modpack);
               loadModpack_version data).
Proof.
  apply prints_only_bind; [apply prints_only_index | intros data; apply prints_only_version].
Qed.

(** When the target directory is not there, it is made and the archive is
    extracted into it. *)
Lemma loadModpack_extracts_when_absent P modpack w d1 raw d2 :
  let target := modpack_dir_of P modpack in
  FS.exists_ (fs w) (abs P modpack) = true ->
  FS.read (fs w) (abs P modpack) = inr raw ->
  is_zipfile P raw = true ->
  FS.exists_ (fs w) (abs P target) = false ->
  FS.mkdir false (fs w) (abs P target) = inr d1 ->
  FS.read d1 (abs P modpack) = inr raw ->
  extractall P raw (abs P target) d1 = inr d2 ->
  loadModpack_extract P modpack w =
  (Ok target,
   {| fs := d2;
      out := out w ++ [Say (CreatedDirectory target); Unzip modpack target;
                       Say (Extracted modpack)] |}).
Proof.
  intros target Hex Hraw Hzip Hdir Hmk Hraw1 Hext.
  unfold loadModpack_extract, bind, path_exists, path_is_zipfile.
  rewrite Hex. cbn [negb]. cbv beta. rewrite Hraw, Hzip. cbn [negb]. cbv beta.
  fold target. rewrite Hdir. cbn [negb]. cbv beta.
  rewrite (mkdir_ok P _ _ _ _ Hmk).
  unfold print, log, zip_extractall, bind, get_fs, lift, ret, put_fs. cbn [fs out].
  rewrite Hraw1. cbn [fs out]. rewrite Hext. unfold log. cbn [fs out].
  now rewrite <- !app_assoc.
Qed.

(** With the target directory there, the loader extracts nothing and
    leaves the file system as it is, however it ends. *)
Lemma loadModpack_quiet_when_present P modpack w r w' :
  FS.exists_ (fs w) (abs P (modpack_dir_of P modpack)) = true ->
  loadModpack P modpack w = (r, w') ->
  fs w' = fs w /\ extractions (out w') = extractions (out w).
Proof.
  intros Hdir. unfold loadModpack, bind.
  destruct (loadModpack_extract P modpack w) as [[dir|h] w1] eqn:E1.
  - destruct (prints_only_extract_when_present P _ _ _ _ Hdir E1) as (Hfs1 & l1 & Ho1).
    assert (dir = modpack_dir_of P modpack) as ->.
    { rewrite (extract_when_present P _ _ Hdir) in E1.
      repeat match type of E1 with
             | context [if ?b then _ else _] => destruct b; [discriminate|]
             end.
      congruence. }
    intros H. destruct (prints_only_after_extract P modpack w1 r w') as (Hfs2 & l2 & Ho2).
    { exact H. }
    split; [congruence|]. now rewrite Ho2, Ho1, !extractions_prints.
  - intros [= <- <-].
    destruct (prints_only_extract_when_present P _ _ _ _ Hdir E1) as (Hfs1 & l1 & Ho1).
    split; [exact Hfs1|]. now rewrite Ho1, extractions_prints.
Qed.

(** So an extraction means that the target directory was not there. *)
Lemma loadModpack_extracts_only_when_absent P modpack w r w' :
  loadModpack P modpack w = (r, w') ->
  extractions (out w') <> extractions (out w) ->
  FS.exists_ (fs w) (abs P (modpack_dir_of P modpack)) = false.
Proof.
  intros Hrun Hne.
  destruct (FS.exists_ (fs w) (abs P (modpack_dir_of P modpack))) eqn:E; [|reflexivity].
  now destruct (loadModpack_quiet_when_present P _ _ _ _ E Hrun).
Qed.

(** C6.  The extraction target is [cwd / stem / 'pack'], a function of
    the archive's base name.  When that directory exists, the loader
    extracts nothing and changes nothing in the file system, however it
    ends; and for an archive that is there and is a zip file, its first
    step ends well, with the message that the extraction is skipped, and
    the loader goes on to the index. *)
Theorem loadModpack_skips_extraction (P : Platform) (modpack : Path) (w : World) :
  let target := modpack_dir_of P modpack in
  let skipped := {| fs := fs w; out := out w ++ [Say SkippingExtract] |} in
  FS.exists_ (fs w) (abs P target) = true ->
  (forall r w',
      loadModpack P modpack w = (r, w') ->
      fs w' = fs w /\ extractions (out w') = extractions (out w))
  /\ (fst (path_exists P modpack w) = Ok true ->
      fst (path_is_zipfile P modpack w) = Ok true ->
      loadModpack_extract P modpack w = (Ok target, skipped)
      /\ loadModpack P modpack w
         = (do data <- loadModpack_index P modpack target;
            loadModpack_version data) skipped)
  /\ (forall other, name other = name modpack -> modpack_dir_of P other = target).
Proof.
  intros target skipped Hdir. split; [|split].
  - intros r w'. now apply loadModpack_quiet_when_present.
  - unfold path_exists, path_is_zipfile. cbn [fst]. intros [= Hex] [= Hzip].
    assert (loadModpack_extract P modpack w = (Ok target, skipped)) as Hskip.
    { rewrite (extract_when_present P _ _ Hdir), Hex, Hzip. reflexivity. }
    split; [exact Hskip|]. unfold loadModpack. now rewrite (bind_ok _ _ _ _ _ Hskip).
  - intros other Hname. unfold target, modpack_dir_of, stem. now rewrite Hname.
Qed.

Lemma loadModpack_skips_extraction_witness :
  let w := Demo.loaded "PK1" in
  let target := modpack_dir_of Demo.platform Demo.modpack in
  let skipped := {| fs := fs w; out := out w ++ [Say SkippingExtract] |} in
  (forall r w',
      loadModpack Demo.platform Demo.modpack w = (r, w') ->
      fs w' = fs w /\ extractions (out w') = extractions (out w))
  /\ (fst (path_exists Demo.platform Demo.modpack w) = Ok true ->
      fst (path_is_zipfile Demo.platform Demo.modpack w) = Ok true ->
      loadModpack_extract Demo.platform Demo.modpack w = (Ok target, skipped)
      /\ loadModpack Demo.platform Demo.modpack w
         = (do data <- loadModpack_index Demo.platform Demo.modpack target;
            loadModpack_version data) skipped)
  /\ (forall other, name other = name Demo.modpack ->
                    modpack_dir_of Demo.platform other = target).
Proof.
  apply (loadModpack_skips_extraction Demo.platform Demo.modpack (Demo.loaded "PK1")).
  vm_compute. reflexivity.
Defined.

(** A second run on the same archive: nothing is extracted, and the loader
    returns the manifest again. *)
Example loadModpack_second_run :
  let w := Demo.loaded "PK1" in
  extractions (out w) = 1%nat
  /\ fst (loadModpack Demo.platform Demo.modpack w) = Ok Demo.manifest1
  /\ extractions (out (snd (loadModpack Demo.platform Demo.modpack w))) = 1%nat.
Proof. vm_compute. repeat split. Qed.

(** ** The Override Overlay *)

Section OverlayFacts.
Import FS Shutil.

Lemma lookup_step d c p :
  lookup d (c :: p) = match alookup c d with Some n => below n p | None => None end.
Proof. simpl. destruct (alookup c d) as [[x|t]|]; reflexivity. Qed.

Lemma lookup_app d q p :
  lookup d (q ++ p) = match lookup d q with Some n => below n p | None => None end.
Proof.
  revert d. induction q as [|c q IH]; intros d; [reflexivity|].
  rewrite <- app_comm_cons, !lookup_step.
  destruct (alookup c d) as [[x|t]|]; [|apply IH|reflexivity].
  destruct q; [reflexivity | now destruct p].
Qed.

Lemma mkdir_existing d q t : lookup d q = Some (Dir t) -> mkdir true d q = inr d.
Proof.
  revert d. induction q as [|c q IH]; intros d H; [reflexivity|].
  rewrite lookup_cons in H. simpl.
  destruct (alookup c d) as [[x|d']|] eqn:E; try discriminate.
  - now destruct q.
  - rewrite (IH _ H). now rewrite (ainsert_same _ _ _ E).
Qed.

Lemma set_dir_lookup d q t new p :
  lookup d q = Some (Dir t) -> lookup (set_dir d q new) (q ++ p) = lookup new p.
Proof.
  revert d. induction q as [|c q IH]; intros d H; [reflexivity|].
  rewrite lookup_cons in H. cbn [set_dir].
  destruct (alookup c d) as [[x|d']|] eqn:E; try discriminate.
  - now destruct q.
  - rewrite <- app_comm_cons, lookup_cons, alookup_ainsert_eq. now apply IH.
Qed.

Lemma write_alookup_other d c q data d' k :
  write d (c :: q) data = inr d' -> k <> c -> alookup k d' = alookup k d.
Proof.
  intros Hw Hne. destruct q as [|c' q].
  - simpl in Hw. destruct (alookup c d) as [[x|t]|]; try discriminate;
      injection Hw as <-; now apply alookup_ainsert_ne.
  - rewrite write_below in Hw.
    destruct (alookup c d) as [[x|t]|]; try discriminate.
    destruct (write t (c' :: q) data); [discriminate|].
    injection Hw as <-. now apply alookup_ainsert_ne.
Qed.

Section Entries.
Variable rec : node -> dir -> dir * list Exn.

Lemma copy_entries_cons k src rest dst :
  copy_entries rec ((k, src) :: rest) dst =
  let '(dst1, errs1) := copy_entry rec k src dst in
  let '(dst2, errs2) := copy_entries rec rest dst1 in
  (dst2, errs1 ++ errs2).
Proof. reflexivity. Qed.

(** An entry only touches the destination entry of its own name. *)
Lemma copy_entry_frame k src dst c :
  c <> k -> alookup c (fst (copy_entry rec k src dst)) = alookup c dst.
Proof.
  intros Hne. unfold copy_entry. destruct src as [data|sub].
  - unfold copy_file.
    destruct (write dst _ data) as [e|dst'] eqn:Hw; [reflexivity|].
    cbn [fst]. destruct (is_dir dst [k]);
      eapply write_alookup_other; eauto.
  - destruct (alookup k dst) as [[x|t]|]; [reflexivity| |].
    + destruct (rec (Dir sub) t). cbn [fst]. now apply alookup_ainsert_ne.
    + destruct (rec (Dir sub) []). cbn [fst]. now apply alookup_ainsert_ne.
Qed.

Lemma copy_entries_frame entries dst c :
  existsb (String.eqb c) (names entries) = false ->
  alookup c (fst (copy_entries rec entries dst)) = alookup c dst.
Proof.
  revert dst. induction entries as [|[k src] rest IH]; intros dst H; [reflexivity|].
  simpl in H. apply orb_false_iff in H as [Hk Hrest].
  apply String.eqb_neq in Hk.
  rewrite copy_entries_cons.
  pose proof (copy_entry_frame k src dst c Hk) as Hstep.
  destruct (copy_entry rec k src dst) as [dst1 errs1].
  specialize (IH dst1 Hrest).
  destruct (copy_entries rec rest dst1) as [dst2 errs2].
  cbn [fst] in *. congruence.
Qed.
End Entries.

Lemma wf_node_cons k m d :
  wf_node (Dir ((k, m) :: d)) =
  negb (existsb (String.eqb k) (names d)) && wf_node m && wf_node (Dir d).
Proof. reflexivity. Qed.

(** A file of the source tree replaces the file at the same path of the
    destination tree. *)
Lemma copytree_overwrites p :
  forall entries dst x y,
    wf_node (Dir entries) = true ->
    lookup entries p = Some (File x) ->
    lookup dst p = Some (File y) ->
    lookup (fst (copytree (Dir entries) dst)) p = Some (File x).
Proof.
  induction p as [|c p IHp]; intros entries; [discriminate|].
  cbn [copytree].
  induction entries as [|[k src] rest IHes]; intros dst x y Hwf Hsrc Hdst;
    [discriminate|].
  rewrite wf_node_cons in Hwf.
  apply andb_true_iff in Hwf as [Hwf Hrest].
  apply andb_true_iff in Hwf as [Hk Hwsrc].
  apply negb_true_iff in Hk.
  rewrite copy_entries_cons.
  rewrite lookup_step in Hsrc. cbn [alookup] in Hsrc.
  destruct (String.eqb_spec c k) as [->|Hck].
  - assert (exists n1, alookup k (fst (copy_entry copytree k src dst)) = Some n1
                       /\ below n1 p = Some (File x)) as (n1 & Hn1 & Hbelow).
    { rewrite lookup_step in Hdst.
      destruct (alookup k dst) as [m|] eqn:Em; [|discriminate].
      destruct src as [x'|sub].
      - destruct p; [|discriminate]. injection Hsrc as ->.
        destruct m as [y'|t]; [|discriminate].
        exists (File x). split; [|reflexivity].
        unfold copy_entry, copy_file, is_dir. rewrite lookup_step, Em.
        cbn [below write]. rewrite Em. cbn [fst]. apply alookup_ainsert_eq.
      - cbn [below] in Hsrc.
        destruct m as [y'|t]; [destruct p; discriminate|].
        cbn [below] in Hdst.
        pose proof (IHp sub t x y Hwsrc Hsrc Hdst) as IH.
        unfold copy_entry. rewrite Em.
        destruct (copytree (Dir sub) t) as [t' errs]. cbn [fst] in *.
        exists (Dir t'). split; [apply alookup_ainsert_eq | exact IH]. }
    destruct (copy_entry copytree k src dst) as [dst1 errs1]. cbn [fst] in Hn1.
    pose proof (copy_entries_frame copytree rest dst1 k Hk) as Hframe.
    destruct (copy_entries copytree rest dst1) as [dst2 errs2]. cbn [fst] in *.
    now rewrite lookup_step, Hframe, Hn1.
  - pose proof (copy_entry_frame copytree k src dst c Hck) as Hstep.
    destruct (copy_entry copytree k src dst) as [dst1 errs1]. cbn [fst] in Hstep.
    assert (lookup dst1 (c :: p) = Some (File y)) as Hdst1.
    { rewrite lookup_step, Hstep, <- lookup_step. exact Hdst. }
    assert (lookup rest (c :: p) = Some (File x)) as Hsrc1.
    { now rewrite lookup_step. }
    specialize (IHes dst1 x y Hrest Hsrc1 Hdst1).
    destruct (copy_entries copytree rest dst1) as [dst2 errs2]. exact IHes.
Qed.

End OverlayFacts.

Section OverlayRun.
Import FS Shutil.
Context (P : Platform).

Lemma copytree_at_overwrites d src dst entries p x y :
  lookup d src = Some (Dir entries) ->
  wf_node (Dir entries) = true ->
  lookup entries p = Some (File x) ->
  lookup d (dst ++ p) = Some (File y) ->
  lookup (fst (copytree_at d src dst)) (dst ++ p) = Some (File x).
Proof.
  intros Hsrc Hwf Hx Hy.
  assert (p <> []) as Hp by (intros ->; discriminate).
  rewrite lookup_app in Hy.
  destruct (lookup d dst) as [[z|t]|] eqn:Hdst; try discriminate.
  { destruct p; [congruence | discriminate]. }
  cbn [below] in Hy.
  unfold copytree_at. rewrite Hsrc, (mkdir_existing _ _ _ Hdst), Hdst.
  pose proof (copytree_overwrites p entries t x y Hwf Hx Hy) as H.
  destruct (copytree (Dir entries) t) as [t' errs]. cbn [fst] in *.
  now rewrite (set_dir_lookup _ _ _ _ _ Hdst).
Qed.

Lemma abs_join p s :
  anchored p = true -> Path_of s = {| anchored := false; parts := [s] |} ->
  abs P (p // s) = abs P p ++ [s].
Proof. intros Ha Hs. unfold abs, joinpath. rewrite Hs. cbn. now rewrite Ha. Qed.

Lemma name_join p s :
  Path_of s = {| anchored := false; parts := [s] |} -> name (p // s) = s.
Proof. intros Hs. unfold name, joinpath. rewrite Hs. cbn. apply last_last. Qed.

(** The copy of the manifest writes [install/modrinth.index.json], or the
    file of that name inside it when it is a directory, and nothing
    else. *)
Lemma shutil_copy_manifest_other modpack w r w' p x :
  let install := abs P (installDir_of P modpack) in
  shutil_copy P (cwd P // stem modpack // "pack" // "modrinth.index.json")
                (installDir_of P modpack // "modrinth.index.json") w = (r, w') ->
  lookup (fs w) (install ++ p) = Some (File x) ->
  p <> ["modrinth.index.json"] ->
  p <> ["modrinth.index.json"; "modrinth.index.json"] ->
  lookup (fs w') (install ++ p) = Some (File x).
Proof.
  intros install. unfold shutil_copy, bind, get_fs, lift, ret, raise, put_fs.
  destruct (read (fs w) _) as [e|data]; [now intros [= _ <-]|].
  rewrite name_join by reflexivity.
  rewrite abs_join by (reflexivity || apply installDir_anchored).
  fold install. unfold copy_file.
  destruct (write (fs w) _ data) as [e|d'] eqn:Hw; [now intros [= _ <-]|].
  intros [= _ <-] Hx Hp1 Hp2. cbn [fs].
  eapply write_other; [exact Hw | exact Hx |].
  destruct (is_dir (fs w) (install ++ ["modrinth.index.json"])).
  - rewrite <- app_assoc. intros H. apply app_inv_head in H. now apply Hp2.
  - intros H. apply app_inv_head in H. now apply Hp1.
Qed.

(** Without an overrides directory the step ends at once: the file system
    is as it was. *)
Lemma copyOverrides_absent modpack w :
  exists_ (fs w) (abs P (overrides_of P modpack)) = false ->
  copyOverrides P modpack w =
  (Ok tt, {| fs := fs w; out := out w ++ [Say NoOverrides] |}).
Proof.
  intros H. unfold copyOverrides, bind, path_exists.
  fold (overrides_of P modpack). now rewrite H.
Qed.

Lemma copyOverrides_present modpack w :
  exists_ (fs w) (abs P (overrides_of P modpack)) = true ->
  copyOverrides P modpack w =
  (do_ try_copytree P (overrides_of P modpack) (installDir_of P modpack);
   shutil_copy P (cwd P // stem modpack // "pack" // "modrinth.index.json")
                 (installDir_of P modpack // "modrinth.index.json"))
    {| fs := fs w; out := out w ++ [Say CopyingOverrides] |}.
Proof.
  intros H. unfold copyOverrides, bind at 1, path_exists.
  fold (overrides_of P modpack). rewrite H. reflexivity.
Qed.

End OverlayRun.

(** C8.  The run on an archive without an overrides directory ends well,
    and the install root has no copy of the manifest: [copyOverrides]
    returns on line 119, before the copy of line 132. *)
Theorem main_without_overrides_leaves_no_manifest :
  let run := main Demo.platform " 'Pack.zip' " (Demo.world "PK1") in
  let tree := fs (snd run) in
  fst run = Ok tt
  /\ FS.exists_ tree (Demo.pack_dir ++ ["modrinth.index.json"]) = true
  /\ FS.exists_ tree (Demo.pack_dir ++ ["overrides"]) = false
  /\ FS.exists_ tree Demo.mod_jar = true
  /\ FS.exists_ tree (Demo.install_dir ++ ["modrinth.index.json"]) = false.
Proof. vm_compute. repeat split. Qed.

(** The same run has installed the mod, whose bytes have the digest of the
    manifest. *)
Example main_installs_the_mod :
  let run := main Demo.platform " 'Pack.zip' " (Demo.world "PK1") in
  exists data,
    FS.read (fs (snd run)) Demo.mod_jar = inr data
    /\ SHA1.hexdigest data = Demo.sha1_of_nothing
    /\ fetches (out (snd run)) = [Demo.good_url].
Proof. exists []. vm_compute. repeat split. Qed.

(** With an overrides directory, even an empty one, the manifest is
    copied. *)
Example copyOverrides_with_overrides_copies_manifest :
  let run := copyOverrides Demo.platform Demo.modpack (Demo.overlay_world [] []) in
  fst run = Ok tt
  /\ FS.read (fs (snd run)) (Demo.install_dir ++ ["modrinth.index.json"]) = inr [x4d].
Proof. vm_compute. repeat split. Qed.

(** C9 as the spec states it fails on the path [modrinth.index.json]: the
    override [X] is copied over the installed [Y], and then the manifest
    [M] of the pack is copied over it. *)
Lemma manifest_copy_overwrites_override :
  let w := Demo.overlay_world [("modrinth.index.json", File [x58])]
                              [("modrinth.index.json", File [x59])] in
  let run := copyOverrides Demo.platform Demo.modpack w in
  FS.lookup (fs w) (Demo.pack_dir ++ ["overrides"; "modrinth.index.json"])
  = Some (File [x58])
  /\ FS.lookup (fs w) (Demo.install_dir ++ ["modrinth.index.json"]) = Some (File [x59])
  /\ fst run = Ok tt
  /\ FS.lookup (fs (snd run)) (Demo.install_dir ++ ["modrinth.index.json"])
     = Some (File [x4d]).
Proof. vm_compute. repeat split. Qed.

(** C9, as the code has it.  Without an overrides directory the step is
    skipped, without error and without a change.  With one, whose entries
    have distinct names, a file of the overrides tree replaces the file at
    the same relative path of the install tree, however the step ends;
    the exception is the place the manifest is copied to afterwards,
    [modrinth.index.json] at the install root (or inside a directory of
    that name). *)
Theorem copyOverrides_overwrites
    (P : Platform) (modpack : Path) (w : World) (overrides : dir)
    (p : list string) (x y : bytes) :
  let install := abs P (installDir_of P modpack) in
  (FS.exists_ (fs w) (abs P (overrides_of P modpack)) = false ->
   copyOverrides P modpack w
   = (Ok tt, {| fs := fs w; out := out w ++ [Say NoOverrides] |}))
  /\ (FS.lookup (fs w) (abs P (overrides_of P modpack)) = Some (Dir overrides) ->
      FS.wf_node (Dir overrides) = true ->
      FS.lookup overrides p = Some (File x) ->
      FS.lookup (fs w) (install ++ p) = Some (File y) ->
      p <> ["modrinth.index.json"] ->
      p <> ["modrinth.index.json"; "modrinth.index.json"] ->
      forall r w',
        copyOverrides P modpack w = (r, w') ->
        FS.lookup (fs w') (install ++ p) = Some (File x)).
Proof.
  intros install. split; [apply copyOverrides_absent|].
  intros Hov Hwf Hx Hy Hp1 Hp2 r w'.
  rewrite copyOverrides_present by (unfold FS.exists_; now rewrite Hov).
  pose proof (copytree_at_overwrites (fs w) _ install overrides p x y Hov Hwf Hx Hy)
    as Hcopy.
  unfold bind, try_copytree. cbn [fs out].
  fold install.
  destruct (Shutil.copytree_at (fs w) (abs P (overrides_of P modpack)) install)
    as [d' errs]. cbn [fst] in Hcopy.
  destruct errs as [|e errs].
  - intros Hrun. eapply shutil_copy_manifest_other; eauto.
  - unfold die. now intros [= _ <-].
Qed.

Lemma copyOverrides_overwrites_witness :
  let present := Demo.overlay_world [("config", Dir [("a.cfg", File [x41])])]
                                    [("config", Dir [("a.cfg", File [x42])])] in
  let absent := Demo.loaded "PK1" in
  copyOverrides Demo.platform Demo.modpack absent
  = (Ok tt, {| fs := fs absent; out := out absent ++ [Say NoOverrides] |})
  /\ forall r w',
       copyOverrides Demo.platform Demo.modpack present = (r, w') ->
       FS.lookup (fs w') (Demo.install_dir ++ ["config"; "a.cfg"]) = Some (File [x41]).
Proof.
  split.
  - apply (copyOverrides_overwrites Demo.platform Demo.modpack (Demo.loaded "PK1")
             [] [] [] []).
    vm_compute. reflexivity.
  - apply (copyOverrides_overwrites Demo.platform Demo.modpack
             (Demo.overlay_world [("config", Dir [("a.cfg", File [x41])])]
                                 [("config", Dir [("a.cfg", File [x42])])])
             [("config", Dir [("a.cfg", File [x41])])] ["config"; "a.cfg"] [x41] [x42]).
    + vm_compute. reflexivity.
    + vm_compute. reflexivity.
    + vm_compute. reflexivity.
    + vm_compute. reflexivity.
    + discriminate.
    + discriminate.
Defined.

(** * Further properties of the script *)

(** ** What the file-system operations keep *)

Section Keeps.
Import FS.

Lemma keeps_refl d : keeps d d.
Proof. intros q n H. eauto. Qed.

Lemma keeps_trans d1 d2 d3 : keeps d1 d2 -> keeps d2 d3 -> keeps d1 d3.
Proof.
  intros H12 H23 q n H. destruct (H12 _ _ H) as (n2 & H2 & K2).
  destruct (H23 _ _ H2) as (n3 & H3 & K3). exists n3. split; congruence.
Qed.

(** Changing the entry [c] into a node that keeps what was below it. *)
Lemma keeps_ainsert d c new :
  (forall old, alookup c d = Some old ->
     kind new = kind old
     /\ forall q n, below old q = Some n ->
          exists n', below new q = Some n' /\ kind n' = kind n) ->
  keeps d (ainsert c new d).
Proof.
  intros H q n Hq. destruct q as [|k q].
  - injection Hq as <-. eexists. split; reflexivity.
  - rewrite lookup_step in Hq. rewrite lookup_step.
    destruct (String.eqb_spec k c) as [->|Hne].
    + rewrite alookup_ainsert_eq.
      destruct (alookup c d) as [old|]; [|discriminate].
      destruct (H old eq_refl) as [_ Hbelow]. now apply Hbelow.
    + rewrite (alookup_ainsert_ne _ _ _ _ Hne).
      destruct (alookup k d) as [m|]; [eauto | discriminate].
Qed.

Lemma mkdir_keeps ok d p d' : mkdir ok d p = inr d' -> keeps d d'.
Proof.
  revert d d'. induction p as [|c p IH]; intros d d' H.
  - simpl in H. destruct ok; [|discriminate]. injection H as <-. apply keeps_refl.
  - simpl in H. destruct (alookup c d) as [[x|t]|] eqn:E.
    + destruct p; discriminate.
    + destruct (mkdir ok t p) as [e|t'] eqn:Em; [discriminate|].
      injection H as <-. apply keeps_ainsert.
      intros old Hold. rewrite E in Hold. injection Hold as <-.
      split; [reflexivity|]. apply (IH _ _ Em).
    + injection H as <-. apply keeps_ainsert. intros old Hold. congruence.
Qed.

Lemma write_keeps d p data d' : write d p data = inr d' -> keeps d d'.
Proof.
  revert d d'. induction p as [|c p IH]; intros d d' H; [discriminate|].
  destruct p as [|c' p].
  - simpl in H.
    assert (d' = ainsert c (File data) d /\ forall t, alookup c d <> Some (Dir t))
      as [-> Hnd].
    { destruct (alookup c d) as [[x|t]|]; try discriminate;
        injection H as <-; split; congruence. }
    apply keeps_ainsert. intros [x|t] Hold; [|now apply Hnd in Hold].
    split; [reflexivity|]. intros [|k q] n Hn; [|discriminate].
    injection Hn as <-. eexists. split; reflexivity.
  - rewrite write_below in H.
    destruct (alookup c d) as [[x|t]|] eqn:E; try discriminate.
    destruct (write t (c' :: p) data) as [e|t'] eqn:Ew; [discriminate|].
    injection H as <-. apply keeps_ainsert.
    intros old Hold. rewrite E in Hold. injection Hold as <-.
    split; [reflexivity|]. apply (IH _ _ Ew).
Qed.

Lemma write_read d p data d' :
  write d p data = inr d' -> lookup d' p = Some (File data).
Proof.
  revert d d'. induction p as [|c p IH]; intros d d' H; [discriminate|].
  destruct p as [|c' p].
  - simpl in H.
    assert (d' = ainsert c (File data) d) as ->.
    { destruct (alookup c d) as [[x|t]|]; try discriminate; now injection H as <-. }
    rewrite lookup_step, alookup_ainsert_eq. reflexivity.
  - rewrite write_below in H.
    destruct (alookup c d) as [[x|t]|] eqn:E; try discriminate.
    destruct (write t (c' :: p) data) as [e|t'] eqn:Ew; [discriminate|].
    injection H as <-. rewrite lookup_cons, alookup_ainsert_eq. apply (IH _ _ Ew).
Qed.

Lemma keeps_exists d d' q : keeps d d' -> exists_ d q = true -> exists_ d' q = true.
Proof.
  unfold exists_. intros H Hq.
  destruct (lookup d q) as [n|] eqn:E; [|discriminate].
  destruct (H _ _ E) as (n' & -> & _). reflexivity.
Qed.

Lemma keeps_is_dir d d' q : keeps d d' -> is_dir d q = true -> is_dir d' q = true.
Proof.
  unfold is_dir. intros H Hq.
  destruct (lookup d q) as [[x|t]|] eqn:E; try discriminate.
  destruct (H _ _ E) as ([x'|t'] & -> & K); [discriminate | reflexivity].
Qed.

End Keeps.

(** ** The Download Verifier, resource by resource *)

Lemma write_file_keeps P d p data :
  keeps d (match write_file P d p data with inr d' => d' | inl (_, d') => d' end).
Proof.
  unfold write_file.
  destruct (write_error P d p data) as [[e [part|]]|].
  - destruct (FS.write d p part) eqn:Hw; [apply keeps_refl | eapply write_keeps, Hw].
  - apply keeps_refl.
  - destruct (FS.write d p data) eqn:Hw; [apply keeps_refl | eapply write_keeps, Hw].
Qed.

Lemma write_file_ok P d p data d' :
  write_file P d p data = inr d' ->
  write_error P d p data = None /\ FS.write d p data = inr d'.
Proof.
  unfold write_file.
  destruct (write_error P d p data) as [[e [part|]]|]; try discriminate.
  destruct (FS.write d p data); [discriminate|]. now intros [= ->].
Qed.

Section BodyCases.
Context (P : Platform).
Variables (installDir : Path) (r : Resource).
Hypothesis Hanch : anchored installDir = true.
Let file := installDir // r_path r.

Lemma body_mkdir_fails w e :
  FS.mkdir true (fs w) (abs P (parent file)) = inl e ->
  downloadMods_body P installDir r w = (Stop (Uncaught e), w).
Proof.
  intros H. unfold downloadMods_body. fold file.
  apply bind_stop. now rewrite mkdir_run, H.
Qed.

Lemma body_present w d1 :
  FS.mkdir true (fs w) (abs P (parent file)) = inr d1 ->
  FS.exists_ d1 (abs P file) = true ->
  downloadMods_body P installDir r w =
  (Ok tt, {| fs := d1; out := out w ++ [Say (SkippingFile (r_path r))] |}).
Proof.
  intros Hmk Hex. unfold downloadMods_body. fold file.
  erewrite bind_ok by (apply mkdir_ok, Hmk).
  unfold path_exists at 1. unfold bind at 1. cbn [fs]. now rewrite Hex.
Qed.

Lemma body_fetch_fails w d1 :
  FS.mkdir true (fs w) (abs P (parent file)) = inr d1 ->
  FS.exists_ d1 (abs P file) = false ->
  urlopen P (fetches (out w)) (r_url r) = None ->
  downloadMods_body P installDir r w =
  (Stop (SysExit (DownloadFailed (r_url r))),
   {| fs := d1;
      out := out w ++ [Say (Downloading (r_url r)); Fetch (r_url r);
                       Say (Error (DownloadFailed (r_url r)))] |}).
Proof.
  intros Hmk Hnew Hfetch. unfold downloadMods_body. fold file.
  erewrite bind_ok by (apply mkdir_ok, Hmk).
  unfold path_exists at 1. unfold bind at 1. cbn [fs]. rewrite Hnew.
  unfold bind at 1. unfold print at 1, log at 1.
  unfold bind at 1. unfold fetch at 1. cbn [fs out].
  rewrite fetches_app_print, Hfetch. unfold die. cbn [fs out].
  now rewrite <- !app_assoc.
Qed.

(** Every way the body can end. *)
Lemma body_cases w res w' :
  downloadMods_body P installDir r w = (res, w') ->
  keeps (fs w) (fs w')
  /\ (res = Ok tt ->
      exists d1,
        FS.mkdir true (fs w) (abs P (parent file)) = inr d1
        /\ FS.exists_ (fs w') (abs P file) = true
        /\ ((FS.exists_ d1 (abs P file) = true
             /\ w' = {| fs := d1; out := out w ++ [Say (SkippingFile (r_path r))] |})
            \/ (FS.exists_ d1 (abs P file) = false
                /\ exists data,
                     urlopen P (fetches (out w)) (r_url r) = Some data
                     /\ SHA1.hexdigest data = r_hash r
                     /\ write_error P d1 (abs P file) data = None
                     /\ FS.write d1 (abs P file) data = inr (fs w')
                     /\ FS.read (fs w') (abs P file) = inr data
                     /\ fetches (out w') = fetches (out w) ++ [r_url r]))).
Proof.
  intros Hrun.
  destruct (FS.mkdir true (fs w) (abs P (parent file))) as [e|d1] eqn:Hmk.
  { rewrite (body_mkdir_fails _ _ Hmk) in Hrun. injection Hrun as <- <-.
    split; [apply keeps_refl | discriminate]. }
  pose proof (mkdir_keeps _ _ _ _ Hmk) as Hk1.
  destruct (FS.exists_ d1 (abs P file)) eqn:Hex.
  { rewrite (body_present _ _ Hmk Hex) in Hrun. injection Hrun as <- <-.
    cbn [fs out]. split; [exact Hk1|]. intros _. exists d1. auto. }
  destruct (urlopen P (fetches (out w)) (r_url r)) as [data|] eqn:Hfetch.
  2:{ rewrite (body_fetch_fails _ _ Hmk Hex Hfetch) in Hrun. injection Hrun as <- <-.
      split; [exact Hk1 | discriminate]. }
  destruct (String.eqb_spec (SHA1.hexdigest data) (r_hash r)) as [Heq|Hne].
  - rewrite (body_verified P installDir r w d1 data Hmk Hex Hfetch Heq) in Hrun.
    fold file in Hrun.
    pose proof (write_file_keeps P d1 (abs P file) data) as Hk2.
    destruct (write_file P d1 (abs P file) data) as [[e d2]|d2] eqn:Hwf;
      injection Hrun as <- <-; cbn [fs out];
      (split; [eapply keeps_trans; [exact Hk1 | exact Hk2]|]); [discriminate|].
    intros _. destruct (write_file_ok _ _ _ _ _ Hwf) as [Hos Hw].
    pose proof (write_read _ _ _ _ Hw) as Hl.
    exists d1. split; [reflexivity|]. split; [unfold FS.exists_; now rewrite Hl|].
    right. split; [exact Hex|]. exists data.
    repeat split; auto.
    + unfold FS.read. now rewrite Hl.
    + rewrite !fetches_app. simpl. now rewrite app_nil_r.
  - rewrite (body_mismatch P installDir r w d1 data Hmk Hex Hfetch Hne) in Hrun.
    injection Hrun as <- <-. split; [exact Hk1 | discriminate].
Qed.

End BodyCases.

(** ** The Download Verifier, run by run *)

Section LoopFacts.
Context (P : Platform) (modpack : Path).
Let body := downloadMods_body P (installDir_of P modpack).

Lemma loop_keeps rs w res w' :
  for_each body rs w = (res, w') -> keeps (fs w) (fs w').
Proof.
  revert w. induction rs as [|r rs IH]; intros w; simpl.
  - intros [= _ <-]. apply keeps_refl.
  - unfold bind. destruct (body r w) as [[[]|h] w1] eqn:E.
    + intros H. eapply keeps_trans; [|apply (IH _ H)].
      eapply body_cases; eauto using installDir_anchored.
    + intros [= _ <-]. eapply body_cases; eauto using installDir_anchored.
Qed.

Lemma loop_installs rs w w' :
  for_each body rs w = (Ok tt, w') ->
  Forall (fun r => FS.exists_ (fs w') (dest P modpack r) = true) rs.
Proof.
  revert w. induction rs as [|r rs IH]; intros w; simpl; [constructor|].
  unfold bind. destruct (body r w) as [[[]|h] w1] eqn:E; [|discriminate].
  intros H. constructor; [|apply (IH _ H)].
  destruct (body_cases P _ r _ _ _ E) as [_ Hok].
  destruct (Hok eq_refl) as (d1 & _ & Hex & _).
  eapply keeps_exists; [apply (loop_keeps _ _ _ _ H) | exact Hex].
Qed.

Lemma loop_skips rs w :
  Forall (fun r => FS.exists_ (fs w) (dest P modpack r) = true) rs ->
  for_each body rs w =
  (Ok tt, {| fs := fs w; out := out w ++ skip_messages rs |}).
Proof.
  intros H. revert w H. induction rs as [|r rs IH]; intros w H; simpl.
  - rewrite app_nil_r. now destruct w.
  - inversion H as [|? ? Hr Hrs]; subst.
    erewrite bind_ok by (apply body_skip; [apply installDir_anchored | exact Hr]).
    rewrite IH by exact Hrs. cbn [fs out]. now rewrite <- app_assoc.
Qed.

Lemma downloadMods_run rs w :
  downloadMods P modpack rs w =
  match FS.mkdir true (fs w) (abs P (installDir_of P modpack)) with
  | inr d => for_each body rs {| fs := d; out := out w |}
  | inl e => (Stop (Uncaught e), w)
  end.
Proof.
  unfold downloadMods, bind. rewrite mkdir_run.
  destruct (FS.mkdir true (fs w) _); reflexivity.
Qed.

Lemma downloadMods_keeps rs w res w' :
  downloadMods P modpack rs w = (res, w') -> keeps (fs w) (fs w').
Proof.
  rewrite downloadMods_run.
  destruct (FS.mkdir true (fs w) _) as [e|d] eqn:Hmk.
  - intros [= _ <-]. apply keeps_refl.
  - intros H. eapply keeps_trans; [eapply mkdir_keeps, Hmk|].
    apply (loop_keeps _ _ _ _ H).
Qed.

Lemma downloadMods_ok_install_dir rs w w' :
  downloadMods P modpack rs w = (Ok tt, w') ->
  FS.mkdir true (fs w') (abs P (installDir_of P modpack)) = inr (fs w').
Proof.
  rewrite downloadMods_run.
  destruct (FS.mkdir true (fs w) _) as [e|d] eqn:Hmk; [discriminate|].
  intros H. pose proof (mkdir_is_dir _ _ _ _ Hmk) as Hd.
  pose proof (keeps_is_dir _ _ _ (loop_keeps _ _ _ _ H) Hd) as Hd'.
  cbn [fs] in Hd'. unfold FS.is_dir in Hd'.
  destruct (FS.lookup (fs w') _) as [[x|t]|] eqn:E; try discriminate.
  eapply mkdir_existing, E.
Qed.

Lemma downloadMods_ok_dests rs w w' :
  downloadMods P modpack rs w = (Ok tt, w') ->
  Forall (fun r => FS.exists_ (fs w') (dest P modpack r) = true) rs.
Proof.
  rewrite downloadMods_run.
  destruct (FS.mkdir true (fs w) _) as [e|d]; [discriminate|].
  apply loop_installs.
Qed.

End LoopFacts.

(** X1.  [downloadMods] never deletes: whatever its outcome, every file
    and directory of the file system it started from is still there, a
    directory as a directory and a file as a file. *)
Theorem downloadMods_never_deletes
    (P : Platform) (modpack : Path) (rs : ResourceList) (w : World) :
  keeps (fs w) (fs (snd (downloadMods P modpack rs w))).
Proof.
  destruct (downloadMods P modpack rs w) as [res w'] eqn:E.
  apply (downloadMods_keeps P modpack _ _ _ _ E).
Qed.

(** X2.  After a run of [downloadMods] that ends well, the destination of
    every resource exists. *)
Theorem downloadMods_installs_all
    (P : Platform) (modpack : Path) (rs : ResourceList) (w w' : World) :
  downloadMods P modpack rs w = (Ok tt, w') ->
  Forall (fun r => FS.exists_ (fs w') (dest P modpack r) = true) rs.
Proof. apply downloadMods_ok_dests. Qed.

Lemma downloadMods_installs_all_witness :
  let rs := [Demo.resource Demo.sha1_of_nothing] in
  Forall (fun r =>
            FS.exists_ (fs (snd (downloadMods Demo.platform Demo.modpack rs
                                   Demo.empty_world)))
                       (dest Demo.platform Demo.modpack r) = true) rs.
Proof.
  apply (downloadMods_installs_all Demo.platform Demo.modpack
           [Demo.resource Demo.sha1_of_nothing] Demo.empty_world).
  vm_compute. reflexivity.
Defined.

(** X3.  [downloadMods] is idempotent: run again on the same resources
    after a run that ended well, it ends well, opens no URL and leaves the
    file system as it is; it only prints that each file is skipped. *)
Theorem downloadMods_idempotent
    (P : Platform) (modpack : Path) (rs : ResourceList) (w w1 : World) :
  downloadMods P modpack rs w = (Ok tt, w1) ->
  downloadMods P modpack rs w1
  = (Ok tt, {| fs := fs w1; out := out w1 ++ skip_messages rs |})
  /\ fetches (out w1 ++ skip_messages rs) = fetches (out w1).
Proof.
  intros H. split.
  - rewrite downloadMods_run, (downloadMods_ok_install_dir P modpack _ _ _ H).
    rewrite loop_skips; [reflexivity|].
    apply (downloadMods_ok_dests P modpack rs w w1 H).
  - unfold skip_messages. rewrite <- (map_map (fun r => SkippingFile (r_path r)) Say).
    apply fetches_prints.
Qed.

Lemma downloadMods_idempotent_witness :
  let rs := [Demo.resource Demo.sha1_of_nothing] in
  let w1 := snd (downloadMods Demo.platform Demo.modpack rs Demo.empty_world) in
  downloadMods Demo.platform Demo.modpack rs w1
  = (Ok tt, {| fs := fs w1; out := out w1 ++ skip_messages rs |})
  /\ fetches (out w1 ++ skip_messages rs) = fetches (out w1).
Proof.
  apply (downloadMods_idempotent Demo.platform Demo.modpack
           [Demo.resource Demo.sha1_of_nothing] Demo.empty_world).
  vm_compute. reflexivity.
Defined.

(** X4.  A file that [downloadMods] creates holds the bytes that were
    fetched for it, and their SHA-1 digest is the expected one: when the
    verifier has gone through [pre], the destination of [r] does not
    exist once its parent directory is made, and the run through [r] ends
    well, then the URL of [r] was opened, once, and the destination holds
    the bytes [urlopen] gave, which have the digest [r_hash r]. *)
Theorem downloadMods_writes_verified_bytes
    (P : Platform) (modpack : Path) (pre : ResourceList) (r : Resource)
    (w w1 w2 : World) (d1 : dir) :
  let file := installDir_of P modpack // r_path r in
  downloadMods P modpack pre w = (Ok tt, w1) ->
  FS.mkdir true (fs w1) (abs P (parent file)) = inr d1 ->
  FS.exists_ d1 (abs P file) = false ->
  downloadMods P modpack (pre ++ [r]) w = (Ok tt, w2) ->
  exists data,
    urlopen P (fetches (out w1)) (r_url r) = Some data
    /\ SHA1.hexdigest data = r_hash r
    /\ FS.write d1 (abs P file) data = inr (fs w2)
    /\ FS.read (fs w2) (abs P file) = inr data
    /\ fetches (out w2) = fetches (out w1) ++ [r_url r].
Proof.
  intros file Hpre Hmk Hnew Hrun.
  rewrite (downloadMods_app P _ _ _ _ _ Hpre), for_each_one in Hrun.
  destruct (body_cases P _ r _ _ _ Hrun) as [_ Hok].
  destruct (Hok eq_refl) as (d & Hmk' & _ & Hcase).
  fold file in Hmk', Hcase. rewrite Hmk in Hmk'. injection Hmk' as <-.
  destruct Hcase as [[Hex _]|[_ (data & Hfetch & Hdig & _ & Hw & Hr & Hf)]];
    [congruence|].
  exists data. auto.
Qed.

Lemma downloadMods_writes_verified_bytes_witness :
  let r := Demo.resource Demo.sha1_of_nothing in
  let file := installDir_of Demo.platform Demo.modpack // r_path r in
  let w1 := {| fs := Demo.tree []; out := [] |} in
  let w2 := snd (downloadMods Demo.platform Demo.modpack ([] ++ [r]) Demo.empty_world) in
  exists data,
    urlopen Demo.platform (fetches (out w1)) (r_url r) = Some data
    /\ SHA1.hexdigest data = r_hash r
    /\ FS.write (Demo.tree [("mods", Dir [])]) (abs Demo.platform file) data
       = inr (fs w2)
    /\ FS.read (fs w2) (abs Demo.platform file) = inr data
    /\ fetches (out w2) = fetches (out w1) ++ [r_url r].
Proof.
  apply (downloadMods_writes_verified_bytes Demo.platform Demo.modpack []
           (Demo.resource Demo.sha1_of_nothing) Demo.empty_world
           {| fs := Demo.tree []; out := [] |}
           (snd (downloadMods Demo.platform Demo.modpack
                   ([] ++ [Demo.resource Demo.sha1_of_nothing]) Demo.empty_world))
           (Demo.tree [("mods", Dir [])])).
  - vm_compute. reflexivity.
  - vm_compute. reflexivity.
  - vm_compute. reflexivity.
  - vm_compute. reflexivity.
Defined.

(** X5.  A fetch that raises stops the run with [DownloadFailed] and exit
    status 1: nothing is written for the resource, and the resources after
    it are not tried. *)
Theorem downloadMods_download_failed
    (P : Platform) (modpack : Path) (pre post : ResourceList) (r : Resource)
    (w w1 : World) (d1 : dir) :
  let file := installDir_of P modpack // r_path r in
  downloadMods P modpack pre w = (Ok tt, w1) ->
  FS.mkdir true (fs w1) (abs P (parent file)) = inr d1 ->
  FS.exists_ d1 (abs P file) = false ->
  urlopen P (fetches (out w1)) (r_url r) = None ->
  downloadMods P modpack (pre ++ r :: post) w
  = (Stop (SysExit (DownloadFailed (r_url r))),
     {| fs := d1;
        out := out w1 ++ [Say (Downloading (r_url r)); Fetch (r_url r);
                          Say (Error (DownloadFailed (r_url r)))] |})
  /\ FS.exists_ d1 (abs P file) = false
  /\ fetches (out w1 ++ [Say (Downloading (r_url r)); Fetch (r_url r);
                         Say (Error (DownloadFailed (r_url r)))])
     = fetches (out w1) ++ [r_url r].
Proof.
  intros file Hpre Hmk Hnew Hfetch. split; [|split].
  - rewrite (downloadMods_app P _ _ _ _ _ Hpre).
    apply for_each_stop.
    eapply body_fetch_fails; eauto.
  - exact Hnew.
  - rewrite fetches_app. reflexivity.
Qed.

Lemma downloadMods_download_failed_witness :
  let r := Demo.resource Demo.sha1_of_nothing in
  let w1 := {| fs := Demo.tree []; out := [] |} in
  let d1 := Demo.tree [("mods", Dir [])] in
  let file := installDir_of Demo.offline Demo.modpack // r_path r in
  downloadMods Demo.offline Demo.modpack ([] ++ r :: [r]) Demo.empty_world
  = (Stop (SysExit (DownloadFailed (r_url r))),
     {| fs := d1;
        out := out w1 ++ [Say (Downloading (r_url r)); Fetch (r_url r);
                          Say (Error (DownloadFailed (r_url r)))] |})
  /\ FS.exists_ d1 (abs Demo.offline file) = false
  /\ fetches (out w1 ++ [Say (Downloading (r_url r)); Fetch (r_url r);
                         Say (Error (DownloadFailed (r_url r)))])
     = fetches (out w1) ++ [r_url r].
Proof.
  apply (downloadMods_download_failed Demo.offline Demo.modpack []
           [Demo.resource Demo.sha1_of_nothing] (Demo.resource Demo.sha1_of_nothing)
           Demo.empty_world {| fs := Demo.tree []; out := [] |}
           (Demo.tree [("mods", Dir [])])).
  - vm_compute. reflexivity.
  - vm_compute. reflexivity.
  - vm_compute. reflexivity.
  - vm_compute. reflexivity.
Defined.

(** ** The Archive Loader, case by case *)

Lemma bind_inv_ok {A B} (m : M A) (k : A -> M B) w b w' :
  bind m k w = (Ok b, w') -> exists a w1, m w = (Ok a, w1) /\ k a w1 = (Ok b, w').
Proof.
  unfold bind. destruct (m w) as [[a|h] w1]; [eauto | discriminate].
Qed.

Section LoaderCases.
Context (P : Platform).

Lemma extract_run modpack w :
  loadModpack_extract P modpack w =
  if negb (FS.exists_ (fs w) (abs P modpack)) then die (NotFound modpack) w
  else if negb (match FS.read (fs w) (abs P modpack) with
                | inr x => is_zipfile P x
                | inl _ => false
                end)
  then die (InvalidArchive modpack) w
  else if FS.exists_ (fs w) (abs P (modpack_dir_of P modpack))
  then (Ok (modpack_dir_of P modpack),
        {| fs := fs w; out := out w ++ [Say SkippingExtract] |})
  else (do_ mkdir P false (modpack_dir_of P modpack);
        do_ print (CreatedDirectory (modpack_dir_of P modpack));
        do_ zip_extractall P modpack (modpack_dir_of P modpack);
        do_ print (Extracted modpack);
        ret (modpack_dir_of P modpack)) w.
Proof.
  unfold loadModpack_extract, path_exists, path_is_zipfile.
  unfold bind at 1. cbv beta iota.
  destruct (negb (FS.exists_ (fs w) (abs P modpack))); [reflexivity|].
  unfold bind at 1. cbv beta iota.
  destruct (negb _); [reflexivity|].
  unfold bind at 1. cbv beta iota.
  destruct (FS.exists_ (fs w) (abs P (modpack_dir_of P modpack))); reflexivity.
Qed.

Lemma extract_returns_target modpack w dir w' :
  loadModpack_extract P modpack w = (Ok dir, w') -> dir = modpack_dir_of P modpack.
Proof.
  rewrite extract_run.
  repeat match goal with
         | |- context [if ?b then _ else _] => destruct b; try discriminate
         end.
  - now intros [= <- _].
  - intros H.
    repeat (apply bind_inv_ok in H; destruct H as (? & ? & _ & H)).
    now injection H as <- _.
Qed.

Lemma index_inv modpack dir w m w' :
  loadModpack_index P modpack dir w = (Ok m, w') ->
  w' = w
  /\ exists raw,
       FS.read (fs w) (abs P (dir // "modrinth.index.json")) = inr raw
       /\ json_load P raw = inr m.
Proof.
  unfold loadModpack_index, load_json, path_exists, bind, get_fs, lift, ret, raise.
  destruct (negb _); [discriminate|].
  destruct (FS.read (fs w) _) as [e|raw]; [discriminate|].
  destruct (json_load P raw) as [e|m'] eqn:E; [discriminate|].
  intros [= <- <-]. split; [reflexivity|]. now exists raw.
Qed.

Lemma version_inv data m w w' :
  loadModpack_version data w = (Ok m, w') ->
  m = data /\ w' = w /\ formatVersion data = 1%Z.
Proof.
  unfold loadModpack_version.
  destruct (Z.eqb_spec (formatVersion data) 1); [|discriminate].
  now intros [= <- <-].
Qed.

End LoaderCases.

(** X6.  An archive path that does not exist stops the loader with
    [NotFound]; one that exists and is not a zip file, a directory among
    them, stops it with [InvalidArchive].  In both cases nothing has been
    created or extracted: the world only has the diagnostic more. *)
Theorem loadModpack_rejects_bad_archive (P : Platform) (modpack : Path) (w : World) :
  (FS.exists_ (fs w) (abs P modpack) = false ->
   loadModpack P modpack w
   = (Stop (SysExit (NotFound modpack)),
      {| fs := fs w; out := out w ++ [Say (Error (NotFound modpack))] |}))
  /\ (FS.exists_ (fs w) (abs P modpack) = true ->
      (FS.is_dir (fs w) (abs P modpack) = true
       \/ exists raw, FS.read (fs w) (abs P modpack) = inr raw
                      /\ is_zipfile P raw = false) ->
      loadModpack P modpack w
      = (Stop (SysExit (InvalidArchive modpack)),
         {| fs := fs w; out := out w ++ [Say (Error (InvalidArchive modpack))] |})).
Proof.
  split.
  - intros Hex. unfold loadModpack. apply bind_stop.
    now rewrite extract_run, Hex.
  - intros Hex Hbad. unfold loadModpack. apply bind_stop.
    rewrite extract_run, Hex. cbn [negb].
    destruct Hbad as [Hdir|(raw & Hraw & Hzip)].
    + unfold FS.is_dir, FS.read in *.
      destruct (FS.lookup (fs w) (abs P modpack)) as [[x|t]|]; try discriminate.
      reflexivity.
    + now rewrite Hraw, Hzip.
Qed.

Lemma loadModpack_rejects_bad_archive_witness :
  loadModpack Demo.platform (Path_of "Missing.zip") (Demo.world "PK1")
  = (Stop (SysExit (NotFound (Path_of "Missing.zip"))),
     {| fs := fs (Demo.world "PK1");
        out := out (Demo.world "PK1") ++ [Say (Error (NotFound (Path_of "Missing.zip")))] |})
  /\ loadModpack Demo.platform (Path_of "/home") (Demo.world "PK1")
     = (Stop (SysExit (InvalidArchive (Path_of "/home"))),
        {| fs := fs (Demo.world "PK1");
           out := out (Demo.world "PK1")
                  ++ [Say (Error (InvalidArchive (Path_of "/home")))] |}).
Proof.
  split.
  - apply (loadModpack_rejects_bad_archive Demo.platform (Path_of "Missing.zip")
             (Demo.world "PK1")).
    vm_compute. reflexivity.
  - apply (loadModpack_rejects_bad_archive Demo.platform (Path_of "/home")
             (Demo.world "PK1")).
    + vm_compute. reflexivity.
    + left. vm_compute. reflexivity.
Defined.

Lemma loadModpack_inv (P : Platform) (modpack : Path) (w w' : World) (m : Manifest) :
  loadModpack P modpack w = (Ok m, w') ->
  formatVersion m = 1%Z
  /\ exists raw,
       FS.read (fs w') (abs P (modpack_dir_of P modpack // "modrinth.index.json"))
       = inr raw
       /\ json_load P raw = inr m.
Proof.
  unfold loadModpack. intros H.
  apply bind_inv_ok in H. destruct H as (dir & w1 & Hext & H).
  apply bind_inv_ok in H. destruct H as (data & w2 & Hidx & Hver).
  apply extract_returns_target in Hext. subst dir.
  apply index_inv in Hidx. destruct Hidx as (-> & raw & Hraw & Hjson).
  apply version_inv in Hver. destruct Hver as (-> & -> & Hv).
  split; [exact Hv|]. now exists raw.
Qed.

(** X7.  What the loader returns is a version-1 manifest, and it is what
    [json.load] makes of [modrinth.index.json] in the extraction target, as
    that file is when the loader returns. *)
Theorem loadModpack_returns_the_index
    (P : Platform) (modpack : Path) (w w' : World) (m : Manifest) :
  loadModpack P modpack w = (Ok m, w') ->
  formatVersion m = 1%Z
  /\ exists raw,
       FS.read (fs w') (abs P (modpack_dir_of P modpack // "modrinth.index.json"))
       = inr raw
       /\ json_load P raw = inr m.
Proof. apply loadModpack_inv. Qed.

Lemma loadModpack_returns_the_index_witness :
  formatVersion Demo.manifest1 = 1%Z
  /\ exists raw,
       FS.read (fs (Demo.loaded "PK1"))
               (abs Demo.platform
                    (modpack_dir_of Demo.platform Demo.modpack // "modrinth.index.json"))
       = inr raw
       /\ json_load Demo.platform raw = inr Demo.manifest1.
Proof.
  apply (loadModpack_returns_the_index Demo.platform Demo.modpack
           (Demo.started "PK1") (Demo.loaded "PK1") Demo.manifest1).
  vm_compute. reflexivity.
Defined.

(** X8.  When the target directory is not there and the archive is a zip
    file, the loader makes the directory, with its parents, and extracts
    the archive into it: one extraction more, and the file system is what
    [extractall] leaves. *)
Theorem loadModpack_extracts_fresh
    (P : Platform) (modpack : Path) (w : World) (d1 d2 : dir) (raw : bytes) :
  let target := modpack_dir_of P modpack in
  let w' := {| fs := d2;
               out := out w ++ [Say (CreatedDirectory target); Unzip modpack target;
                                Say (Extracted modpack)] |} in
  FS.exists_ (fs w) (abs P modpack) = true ->
  FS.read (fs w) (abs P modpack) = inr raw ->
  is_zipfile P raw = true ->
  FS.exists_ (fs w) (abs P target) = false ->
  FS.mkdir false (fs w) (abs P target) = inr d1 ->
  FS.read d1 (abs P modpack) = inr raw ->
  extractall P raw (abs P target) d1 = inr d2 ->
  loadModpack_extract P modpack w = (Ok target, w')
  /\ extractions (out w') = S (extractions (out w))
  /\ FS.is_dir d1 (abs P target) = true.
Proof.
  intros target w' Hex Hraw Hzip Hdir Hmk Hraw1 Hext. split; [|split].
  - now apply (loadModpack_extracts_when_absent P modpack w d1 raw d2).
  - unfold w', extractions. cbn [out].
    rewrite List.filter_app, length_app. simpl. lia.
  - eapply mkdir_is_dir, Hmk.
Qed.

Lemma loadModpack_extracts_fresh_witness :
  let target := modpack_dir_of Demo.platform Demo.modpack in
  let w := Demo.started "PK1" in
  let d1 := fs (snd (mkdir Demo.platform false target w)) in
  let w' := {| fs := fs (Demo.extracted "PK1");
               out := out w ++ [Say (CreatedDirectory target); Unzip Demo.modpack target;
                                Say (Extracted Demo.modpack)] |} in
  loadModpack_extract Demo.platform Demo.modpack w = (Ok target, w')
  /\ extractions (out w') = S (extractions (out w))
  /\ FS.is_dir d1 (abs Demo.platform target) = true.
Proof.
  apply (loadModpack_extracts_fresh Demo.platform Demo.modpack (Demo.started "PK1")
           (fs (snd (mkdir Demo.platform false
                       (modpack_dir_of Demo.platform Demo.modpack) (Demo.started "PK1"))))
           (fs (Demo.extracted "PK1")) (bytes_of_string "PK1")).
  - vm_compute. reflexivity.
  - vm_compute. reflexivity.
  - vm_compute. reflexivity.
  - vm_compute. reflexivity.
  - vm_compute. reflexivity.
  - vm_compute. reflexivity.
  - vm_compute. reflexivity.
Defined.

Lemma read_exists d p raw : FS.read d p = inr raw -> FS.exists_ d p = true.
Proof.
  unfold FS.read, FS.exists_. now destruct (FS.lookup d p) as [[x|t]|].
Qed.

Lemma modpack_dir_anchored P modpack : anchored (modpack_dir_of P modpack) = true.
Proof. unfold modpack_dir_of. now do 2 apply joinpath_anchored. Qed.

Lemma index_path P modpack :
  abs P (modpack_dir_of P modpack // "modrinth.index.json")
  = abs P (modpack_dir_of P modpack) ++ ["modrinth.index.json"].
Proof. apply abs_join; [apply modpack_dir_anchored | reflexivity]. Qed.

(** Without an index after the first step, the loader stops. *)
Lemma loadModpack_without_index P modpack w w1 :
  loadModpack_extract P modpack w = (Ok (modpack_dir_of P modpack), w1) ->
  FS.exists_ (fs w1) (abs P (modpack_dir_of P modpack // "modrinth.index.json")) = false ->
  loadModpack P modpack w
  = (Stop (SysExit (NotModpack modpack)),
     {| fs := fs w1; out := out w1 ++ [Say (Error (NotModpack modpack))] |}).
Proof.
  intros Hext Hidx. unfold loadModpack.
  rewrite (bind_ok _ _ _ _ _ Hext). apply bind_stop.
  unfold loadModpack_index, bind, path_exists. now rewrite Hidx.
Qed.

(** X9.  An extraction target without [modrinth.index.json] stops the
    loader with [NotModpack], whether the directory was just extracted or
    was there before; the file system is as the first step left it. *)
Theorem loadModpack_not_a_modpack
    (P : Platform) (modpack : Path) (w w1 : World) (dir : Path) :
  loadModpack_extract P modpack w = (Ok dir, w1) ->
  FS.exists_ (fs w1) (abs P (modpack_dir_of P modpack) ++ ["modrinth.index.json"]) = false ->
  loadModpack P modpack w
  = (Stop (SysExit (NotModpack modpack)),
     {| fs := fs w1; out := out w1 ++ [Say (Error (NotModpack modpack))] |}).
Proof.
  intros Hext Hidx. pose proof (extract_returns_target _ _ _ _ _ Hext) as ->.
  apply loadModpack_without_index; [exact Hext|]. now rewrite index_path.
Qed.

Lemma loadModpack_not_a_modpack_witness :
  let w := Demo.overlay_world [] [] in
  let w0 := {| fs := FS.set_dir (fs w) ["home"; "u"]
                       [("Pack.zip", File (bytes_of_string "PK1"));
                        ("modpacktools", Dir [("legacyinstall",
                           Dir [("Pack", Dir [("pack", Dir [])])])])];
               out := [] |} in
  let w1 := {| fs := fs w0; out := out w0 ++ [Say SkippingExtract] |} in
  loadModpack Demo.platform Demo.modpack w0
  = (Stop (SysExit (NotModpack Demo.modpack)),
     {| fs := fs w1; out := out w1 ++ [Say (Error (NotModpack Demo.modpack))] |}).
Proof.
  intros w w0 w1.
  apply (loadModpack_not_a_modpack Demo.platform Demo.modpack w0 w1
           (modpack_dir_of Demo.platform Demo.modpack)).
  - vm_compute. reflexivity.
  - vm_compute. reflexivity.
Defined.

(** X10.  An extraction that raises is not tried again.  The run stops
    with the exception, and the target directory stays, with what was
    extracted until then.  The next run on the same archive finds the
    directory and skips the extraction: it goes on with the index as the
    failed extraction left it, changes nothing in the file system, and
    stops with [NotModpack] when the index is not among the files that
    were extracted. *)
Theorem loadModpack_failed_extraction_sticks
    (P : Platform) (modpack : Path) (w : World) (d1 d2 : dir) (raw : bytes) (e : Exn) :
  let target := modpack_dir_of P modpack in
  let w1 := {| fs := d2;
               out := out w ++ [Say (CreatedDirectory target); Unzip modpack target] |} in
  let w2 := {| fs := d2; out := out w1 ++ [Say SkippingExtract] |} in
  FS.read (fs w) (abs P modpack) = inr raw ->
  is_zipfile P raw = true ->
  FS.exists_ (fs w) (abs P target) = false ->
  FS.mkdir false (fs w) (abs P target) = inr d1 ->
  FS.read d1 (abs P modpack) = inr raw ->
  extractall P raw (abs P target) d1 = inl (e, d2) ->
  FS.read d2 (abs P modpack) = inr raw ->
  FS.exists_ d2 (abs P target) = true ->
  loadModpack P modpack w = (Stop (Uncaught e), w1)
  /\ loadModpack_extract P modpack w1 = (Ok target, w2)
  /\ loadModpack P modpack w1
     = (do data <- loadModpack_index P modpack target;
        loadModpack_version data) w2
  /\ (forall res w',
        loadModpack P modpack w1 = (res, w') ->
        fs w' = d2 /\ extractions (out w') = extractions (out w1))
  /\ (FS.exists_ d2 (abs P target ++ ["modrinth.index.json"]) = false ->
      loadModpack P modpack w1
      = (Stop (SysExit (NotModpack modpack)),
         {| fs := d2; out := out w2 ++ [Say (Error (NotModpack modpack))] |})).
Proof.
  intros target w1 w2 Hraw Hzip Hdir Hmk Hraw1 Hext Hraw2 Hdir2.
  assert (loadModpack_extract P modpack w1 = (Ok target, w2)) as Hskip.
  { rewrite extract_run. change (fs w1) with d2.
    rewrite (read_exists _ _ _ Hraw2), Hraw2, Hzip. cbn [negb].
    fold target. now rewrite Hdir2. }
  split; [|split; [exact Hskip|split; [|split]]].
  - unfold loadModpack. apply bind_stop.
    rewrite extract_run, (read_exists _ _ _ Hraw), Hraw, Hzip. cbn [negb].
    fold target. rewrite Hdir.
    erewrite bind_ok by (apply mkdir_ok, Hmk).
    unfold bind at 1. unfold print at 1, log at 1. cbv beta iota.
    apply bind_stop. unfold zip_extractall, bind, get_fs, lift, ret, raise, log, put_fs.
    cbn [fs out]. rewrite Hraw1. cbn [fs out]. rewrite Hext. cbn [fs out]. unfold w1.
    now rewrite <- app_assoc.
  - unfold loadModpack. now rewrite (bind_ok _ _ _ _ _ Hskip).
  - intros res w' Hrun.
    apply (loadModpack_quiet_when_present P modpack w1 res w'); [exact Hdir2 | exact Hrun].
  - intros Hidx.
    apply (loadModpack_without_index P modpack w1 w2); [exact Hskip|].
    cbn [fs]. now rewrite index_path.
Qed.

Lemma loadModpack_failed_extraction_sticks_witness :
  let target := modpack_dir_of Demo.broken Demo.modpack in
  let w := Demo.started "PK1" in
  let d2 := fs (Demo.extracted "PK1") in
  let w1 := {| fs := d2;
               out := out w ++ [Say (CreatedDirectory target); Unzip Demo.modpack target] |} in
  let w2 := {| fs := d2; out := out w1 ++ [Say SkippingExtract] |} in
  loadModpack Demo.broken Demo.modpack w = (Stop (Uncaught LibraryError), w1)
  /\ loadModpack_extract Demo.broken Demo.modpack w1 = (Ok target, w2)
  /\ loadModpack Demo.broken Demo.modpack w1
     = (do data <- loadModpack_index Demo.broken Demo.modpack target;
        loadModpack_version data) w2
  /\ (forall res w',
        loadModpack Demo.broken Demo.modpack w1 = (res, w') ->
        fs w' = d2 /\ extractions (out w') = extractions (out w1))
  /\ (FS.exists_ d2 (abs Demo.broken target ++ ["modrinth.index.json"]) = false ->
      loadModpack Demo.broken Demo.modpack w1
      = (Stop (SysExit (NotModpack Demo.modpack)),
         {| fs := d2; out := out w2 ++ [Say (Error (NotModpack Demo.modpack))] |})).
Proof.
  apply (loadModpack_failed_extraction_sticks Demo.broken Demo.modpack
           (Demo.started "PK1")
           (fs (snd (mkdir Demo.broken false
                       (modpack_dir_of Demo.broken Demo.modpack) (Demo.started "PK1"))))
           (fs (Demo.extracted "PK1"))
           (bytes_of_string "PK1") LibraryError).
  - vm_compute. reflexivity.
  - vm_compute. reflexivity.
  - vm_compute. reflexivity.
  - vm_compute. reflexivity.
  - vm_compute. reflexivity.
  - vm_compute. reflexivity.
  - vm_compute. reflexivity.
  - vm_compute. reflexivity.
Defined.

(** On the platform [broken] the extraction raises after the index is
    written: the first run stops, and the second run takes the directory
    as it is and returns the manifest of the half-extracted pack. *)
Example loadModpack_accepts_partial_extraction :
  let first := loadModpack Demo.broken Demo.modpack (Demo.started "PK1") in
  let second := loadModpack Demo.broken Demo.modpack (snd first) in
  fst first = Stop (Uncaught LibraryError)
  /\ fst second = Ok Demo.manifest1
  /\ extractions (out (snd second)) = 1%nat.
Proof. vm_compute. repeat split. Qed.

(** ** The Resource Resolver, entry by entry *)

Section ResolverCases.
Context (P : Platform).

Lemma prints_only_getMods_body e : prints_only (getMods_body P e).
Proof. unfold getMods_body. prints_steps. Qed.

Lemma prints_only_getMods_loop files acc : prints_only (getMods_loop P files acc).
Proof.
  revert acc. induction files as [|e files IH]; intros acc; simpl.
  - apply prints_only_ret.
  - apply prints_only_bind; [apply prints_only_getMods_body | intros r; apply IH].
Qed.

Lemma getMods_body_inv e r w w' :
  getMods_body P e w = (Ok r, w') ->
  resolves_to e r
  /\ exists n, Url.netloc P (r_url r) = inr n /\ In n ACCEPTED_DOMAINS.
Proof.
  unfold getMods_body, resolves_to, bind, lift, ret, raise, die.
  destruct (downloads e) as [|u us]; [discriminate|].
  destruct (hashes e !! "sha1") as [h|]; [|discriminate].
  cbv beta iota.
  destruct (Url.netloc P u) as [x|n] eqn:Hn; [discriminate|].
  fold (accepted n). destruct (accepted n) eqn:Ha; [|discriminate].
  intros [= <- _]. cbn. repeat split.
  exists n. split; [exact Hn | now apply accepted_In].
Qed.

Lemma getMods_loop_inv files acc rs w w' :
  getMods_loop P files acc w = (Ok rs, w') ->
  exists new,
    rs = acc ++ new
    /\ Forall2 resolves_to files new
    /\ Forall (fun r => exists n, Url.netloc P (r_url r) = inr n
                                  /\ In n ACCEPTED_DOMAINS) new.
Proof.
  revert acc w. induction files as [|e files IH]; intros acc w; simpl.
  - intros [= <- _]. exists []. rewrite app_nil_r. repeat constructor.
  - intros H. apply bind_inv_ok in H. destruct H as (r & w1 & Hbody & Hrest).
    destruct (getMods_body_inv _ _ _ _ Hbody) as [Hres Hacc].
    destruct (IH _ _ Hrest) as (new & -> & Hall & Hok).
    exists (r :: new). rewrite <- app_assoc. repeat split; try constructor; auto.
Qed.

(** An entry the resolver cannot read stops it with the exception. *)
Lemma getMods_body_raises e w :
  (downloads e = [] -> getMods_body P e w = (Stop (Uncaught IndexError), w))
  /\ (forall u us, downloads e = u :: us -> hashes e !! "sha1" = None ->
        getMods_body P e w = (Stop (Uncaught (KeyError "sha1")), w))
  /\ (forall u us h err, downloads e = u :: us -> hashes e !! "sha1" = Some h ->
        Url.netloc P u = inl err ->
        getMods_body P e w = (Stop (Uncaught err), w)).
Proof.
  unfold getMods_body, bind, lift, ret, raise. repeat split.
  - now intros ->.
  - intros u us -> ->. reflexivity.
  - intros u us h err -> -> ->. reflexivity.
Qed.

Lemma getMods_reaches v pre e post rs w w' :
  getMods P {| formatVersion := v; files := pre |} w = (Ok rs, w') ->
  getMods P {| formatVersion := v; files := pre ++ e :: post |} w
  = (do r <- getMods_body P e; getMods_loop P post (rs ++ [r])) w.
Proof.
  unfold getMods. cbn [files]. intros Hpre.
  pose proof (getMods_loop_ok_world _ _ _ _ _ _ Hpre) as ->.
  now rewrite getMods_loop_app, Hpre.
Qed.

End ResolverCases.

(** X11.  [getMods] only reads: whatever its outcome, the file system is
    untouched, no URL is opened, and the only events are messages; when it
    ends well there is no event at all. *)
Theorem getMods_is_read_only (P : Platform) (m : Manifest) (w : World) :
  let run := getMods P m w in
  fs (snd run) = fs w
  /\ (exists msgs, out (snd run) = out w ++ map Say msgs)
  /\ fetches (out (snd run)) = fetches (out w)
  /\ (forall rs, fst run = Ok rs -> snd run = w).
Proof.
  cbv zeta. destruct (getMods P m w) as [res w'] eqn:E. cbn [fst snd].
  destruct (prints_only_getMods_loop P _ _ _ _ _ E) as (Hfs & msgs & Hout).
  split; [exact Hfs|]. split; [now exists msgs|]. split.
  - rewrite Hout. apply fetches_prints.
  - intros rs ->. apply (getMods_loop_ok_world _ _ _ _ _ _ E).
Qed.

(** X12.  The resources [getMods] returns are exactly the entries of the
    manifest, in order, each with its first URL, path and SHA-1 hash; and
    the netloc of every returned URL is on the allow-list: no resource
    with another netloc reaches the Download Verifier. *)
Theorem getMods_returns_only_accepted
    (P : Platform) (m : Manifest) (rs : ResourceList) (w w' : World) :
  getMods P m w = (Ok rs, w') ->
  Forall2 resolves_to (files m) rs
  /\ Forall (fun r => exists n, Url.netloc P (r_url r) = inr n
                                /\ In n ACCEPTED_DOMAINS) rs.
Proof.
  intros H. destruct (getMods_loop_inv P _ _ _ _ _ H) as (new & -> & Hall & Hok).
  now split.
Qed.

Lemma getMods_returns_only_accepted_witness :
  Forall2 resolves_to (files Demo.manifest1) [Demo.resource Demo.sha1_of_nothing]
  /\ Forall (fun r => exists n, Url.netloc Demo.platform (r_url r) = inr n
                                /\ In n ACCEPTED_DOMAINS)
            [Demo.resource Demo.sha1_of_nothing].
Proof.
  apply (getMods_returns_only_accepted Demo.platform Demo.manifest1
           [Demo.resource Demo.sha1_of_nothing] Demo.empty_world Demo.empty_world).
  vm_compute. reflexivity.
Defined.

(** X13.  [getMods] reads the URL, the path and the hash of an entry before
    it looks at the domain.  An entry it reaches with an empty list of
    downloads stops it with an uncaught [IndexError], one without a
    ["sha1"] hash with an uncaught [KeyError], whatever its URL is, and one
    whose URL [urlparse] refuses with that exception; nothing is printed. *)
Theorem getMods_unreadable_entry
    (P : Platform) (v : Z) (pre post : list FileEntry) (e : FileEntry)
    (rs : ResourceList) (w w' : World) :
  let m := {| formatVersion := v; files := pre ++ e :: post |} in
  getMods P {| formatVersion := v; files := pre |} w = (Ok rs, w') ->
  (downloads e = [] -> getMods P m w = (Stop (Uncaught IndexError), w))
  /\ (forall u us, downloads e = u :: us -> hashes e !! "sha1" = None ->
        getMods P m w = (Stop (Uncaught (KeyError "sha1")), w))
  /\ (forall u us h err, downloads e = u :: us -> hashes e !! "sha1" = Some h ->
        Url.netloc P u = inl err ->
        getMods P m w = (Stop (Uncaught err), w)).
Proof.
  intros m Hpre. unfold m.
  destruct (getMods_body_raises P e w) as (H1 & H2 & H3).
  repeat split; intros; rewrite (getMods_reaches P _ _ _ _ _ _ _ Hpre);
    apply bind_stop; eauto.
Qed.

Lemma getMods_unreadable_entry_witness :
  let no_url := {| downloads := []; path := "mods/a.jar";
                   hashes := {[ "sha1" := Demo.sha1_of_nothing ]} |} in
  let no_sha1 := {| downloads := ["https://evil.example/a.jar"]; path := "mods/a.jar";
                    hashes := {[ "sha512" := "00" ]} |} in
  let bad_url := Demo.entry "https://[cdn.modrinth.com/a.jar" Demo.sha1_of_nothing in
  getMods Demo.platform
    {| formatVersion := 1; files := files Demo.manifest1 ++ no_url :: [] |}
    Demo.empty_world
  = (Stop (Uncaught IndexError), Demo.empty_world)
  /\ getMods Demo.platform
       {| formatVersion := 1; files := files Demo.manifest1 ++ no_sha1 :: [] |}
       Demo.empty_world
     = (Stop (Uncaught (KeyError "sha1")), Demo.empty_world)
  /\ getMods Demo.platform
       {| formatVersion := 1; files := files Demo.manifest1 ++ bad_url :: [] |}
       Demo.empty_world
     = (Stop (Uncaught ValueError), Demo.empty_world).
Proof.
  intros no_url no_sha1 bad_url.
  assert (getMods Demo.platform {| formatVersion := 1; files := files Demo.manifest1 |}
            Demo.empty_world
          = (Ok [Demo.resource Demo.sha1_of_nothing], Demo.empty_world)) as Hpre
    by (vm_compute; reflexivity).
  split; [|split].
  - apply (getMods_unreadable_entry Demo.platform 1 _ [] no_url _ _ _ Hpre).
    reflexivity.
  - apply (getMods_unreadable_entry Demo.platform 1 _ [] no_sha1 _ _ _ Hpre)
      with (u := "https://evil.example/a.jar") (us := []).
    + reflexivity.
    + vm_compute. reflexivity.
  - apply (getMods_unreadable_entry Demo.platform 1 _ [] bad_url _ _ _ Hpre)
      with (u := "https://[cdn.modrinth.com/a.jar") (us := [])
           (h := Demo.sha1_of_nothing).
    + reflexivity.
    + vm_compute. reflexivity.
    + vm_compute. reflexivity.
Defined.

(** ** The Override Overlay, file by file *)

Section CopytreeCases.
Import FS Shutil.

Lemma free_step d c p :
  free d (c :: p) =
  match alookup c d, p with
  | Some (Dir _), [] => false
  | _, [] => true
  | Some (Dir d'), _ => free d' p
  | Some (File _), _ => false
  | None, _ => true
  end.
Proof. reflexivity. Qed.

Lemma free_empty p : p <> [] -> free [] p = true.
Proof. destruct p as [|c [|c' p]]; [congruence | reflexivity | reflexivity]. Qed.

(** A file of the source tree is put at the same path of the destination
    tree when that path is free. *)
Lemma copytree_installs p :
  forall entries dst x,
    wf_node (Dir entries) = true ->
    lookup entries p = Some (File x) ->
    free dst p = true ->
    lookup (fst (copytree (Dir entries) dst)) p = Some (File x).
Proof.
  induction p as [|c p IHp]; intros entries; [discriminate|].
  cbn [copytree].
  induction entries as [|[k src] rest IHes]; intros dst x Hwf Hsrc Hfree;
    [discriminate|].
  rewrite wf_node_cons in Hwf.
  apply andb_true_iff in Hwf as [Hwf Hrest].
  apply andb_true_iff in Hwf as [Hk Hwsrc].
  apply negb_true_iff in Hk.
  rewrite copy_entries_cons.
  rewrite lookup_step in Hsrc. cbn [alookup] in Hsrc.
  destruct (String.eqb_spec c k) as [->|Hck].
  - assert (exists n1, alookup k (fst (copy_entry copytree k src dst)) = Some n1
                       /\ below n1 p = Some (File x)) as (n1 & Hn1 & Hbelow).
    { rewrite free_step in Hfree.
      destruct src as [x'|sub].
      - destruct p; [|discriminate]. injection Hsrc as ->.
        exists (File x). split; [|reflexivity].
        unfold copy_entry, copy_file, is_dir. rewrite lookup_step.
        destruct (alookup k dst) as [[y|t]|] eqn:Em; try discriminate;
          cbn [below write]; rewrite Em; cbn [fst]; apply alookup_ainsert_eq.
      - cbn [below] in Hsrc.
        assert (p <> []) as Hp by (intros ->; discriminate).
        unfold copy_entry.
        destruct (alookup k dst) as [[y|t]|] eqn:Em.
        + destruct p; [congruence | discriminate].
        + assert (free t p = true) as Hft by (destruct p; [congruence | exact Hfree]).
          pose proof (IHp sub t x Hwsrc Hsrc Hft) as IH.
          destruct (copytree (Dir sub) t) as [t' errs]. cbn [fst] in *.
          exists (Dir t'). split; [apply alookup_ainsert_eq | exact IH].
        + pose proof (IHp sub [] x Hwsrc Hsrc (free_empty p Hp)) as IH.
          destruct (copytree (Dir sub) []) as [t' errs]. cbn [fst] in *.
          exists (Dir t'). split; [apply alookup_ainsert_eq | exact IH]. }
    destruct (copy_entry copytree k src dst) as [dst1 errs1]. cbn [fst] in Hn1.
    pose proof (copy_entries_frame copytree rest dst1 k Hk) as Hframe.
    destruct (copy_entries copytree rest dst1) as [dst2 errs2]. cbn [fst] in *.
    now rewrite lookup_step, Hframe, Hn1.
  - pose proof (copy_entry_frame copytree k src dst c Hck) as Hstep.
    destruct (copy_entry copytree k src dst) as [dst1 errs1]. cbn [fst] in Hstep.
    assert (free dst1 (c :: p) = true) as Hfree1.
    { rewrite free_step, Hstep, <- free_step. exact Hfree. }
    assert (lookup rest (c :: p) = Some (File x)) as Hsrc1.
    { now rewrite lookup_step. }
    specialize (IHes dst1 x Hrest Hsrc1 Hfree1).
    destruct (copy_entries copytree rest dst1) as [dst2 errs2]. exact IHes.
Qed.

(** A directory of the source over a file of the destination is an error,
    and the file stays. *)
Lemma copy_entries_conflict entries dst k sub y :
  wf_node (Dir entries) = true ->
  alookup k entries = Some (Dir sub) ->
  alookup k dst = Some (File y) ->
  snd (copy_entries copytree entries dst) <> []
  /\ alookup k (fst (copy_entries copytree entries dst)) = Some (File y).
Proof.
  revert dst. induction entries as [|[k' src] rest IH]; intros dst Hwf Hsrc Hdst;
    [discriminate|].
  rewrite wf_node_cons in Hwf.
  apply andb_true_iff in Hwf as [Hwf Hrest].
  apply andb_true_iff in Hwf as [Hk _]. apply negb_true_iff in Hk.
  rewrite copy_entries_cons. cbn [alookup] in Hsrc.
  destruct (String.eqb_spec k k') as [<-|Hne].
  - injection Hsrc as ->. unfold copy_entry. rewrite Hdst.
    pose proof (copy_entries_frame copytree rest dst k Hk) as Hframe.
    destruct (copy_entries copytree rest dst) as [dst2 errs2]. cbn [fst snd] in *.
    split; [discriminate | congruence].
  - pose proof (copy_entry_frame copytree k' src dst k Hne) as Hstep.
    destruct (copy_entry copytree k' src dst) as [dst1 errs1]. cbn [fst] in Hstep.
    destruct (IH dst1 Hrest Hsrc) as [Herr Hkeep]; [congruence|].
    destruct (copy_entries copytree rest dst1) as [dst2 errs2]. cbn [fst snd] in *.
    split; [|exact Hkeep]. intros H. apply app_eq_nil in H. now destruct H.
Qed.

End CopytreeCases.

Section OverlayCases.
Import FS Shutil.
Context (P : Platform).

(** From the install directory to the whole run of [copyOverrides]: what
    [copytree] leaves at a path of the install tree is what the run leaves
    there, but for the place of the manifest. *)
Lemma copyOverrides_file_after modpack w overrides t p x :
  let install := abs P (installDir_of P modpack) in
  lookup (fs w) (abs P (overrides_of P modpack)) = Some (Dir overrides) ->
  lookup (fs w) install = Some (Dir t) ->
  lookup (fst (copytree (Dir overrides) t)) p = Some (File x) ->
  p <> ["modrinth.index.json"] ->
  p <> ["modrinth.index.json"; "modrinth.index.json"] ->
  forall r w',
    copyOverrides P modpack w = (r, w') ->
    lookup (fs w') (install ++ p) = Some (File x).
Proof.
  intros install Hov Hinst Hcopy Hp1 Hp2 r w'.
  rewrite copyOverrides_present by (unfold exists_; now rewrite Hov).
  unfold bind, try_copytree. cbn [fs out].
  unfold copytree_at. fold install.
  rewrite Hov, (mkdir_existing _ _ _ Hinst), Hinst.
  destruct (copytree (Dir overrides) t) as [t' errs]. cbn [fst] in Hcopy.
  assert (lookup (set_dir (fs w) install t') (install ++ p) = Some (File x)) as Hset.
  { now rewrite (set_dir_lookup _ _ _ _ _ Hinst). }
  destruct errs as [|e errs].
  - intros Hrun. eapply shutil_copy_manifest_other; eauto.
  - unfold die. now intros [= _ <-].
Qed.

Lemma install_file_inv d install p y :
  p <> [] ->
  lookup d (install ++ p) = Some (File y) ->
  exists t, lookup d install = Some (Dir t) /\ lookup t p = Some (File y).
Proof.
  intros Hp H. rewrite lookup_app in H.
  destruct (lookup d install) as [[z|t]|]; try discriminate.
  - destruct p; [congruence | discriminate].
  - now exists t.
Qed.

End OverlayCases.

(** X14.  Overrides are added as well as overwritten: with an overrides
    directory whose entries have distinct names, a file of the overrides
    tree ends at the same relative path of the install tree whenever that
    path is free there (no ancestor of it is a file, and it is not a
    directory), however [copyOverrides] ends; the exception is the place
    of the manifest copy. *)
Theorem copyOverrides_installs_overrides
    (P : Platform) (modpack : Path) (w : World) (overrides t : dir)
    (p : list string) (x : bytes) :
  let install := abs P (installDir_of P modpack) in
  FS.lookup (fs w) (abs P (overrides_of P modpack)) = Some (Dir overrides) ->
  FS.wf_node (Dir overrides) = true ->
  FS.lookup overrides p = Some (File x) ->
  FS.lookup (fs w) install = Some (Dir t) ->
  FS.free t p = true ->
  p <> ["modrinth.index.json"] ->
  p <> ["modrinth.index.json"; "modrinth.index.json"] ->
  forall r w',
    copyOverrides P modpack w = (r, w') ->
    FS.lookup (fs w') (install ++ p) = Some (File x).
Proof.
  intros install Hov Hwf Hx Hinst Hfree Hp1 Hp2.
  eapply copyOverrides_file_after; eauto.
  now apply copytree_installs.
Qed.

Lemma copyOverrides_installs_overrides_witness :
  let w := Demo.overlay_world [("config", Dir [("a.cfg", File [x41])])]
                              [("mods", Dir [("mod.jar", File [])])] in
  let w' := snd (copyOverrides Demo.platform Demo.modpack w) in
  FS.lookup (fs w') (abs Demo.platform (installDir_of Demo.platform Demo.modpack)
                     ++ ["config"; "a.cfg"])
  = Some (File [x41]).
Proof.
  apply (copyOverrides_installs_overrides Demo.platform Demo.modpack
           (Demo.overlay_world [("config", Dir [("a.cfg", File [x41])])]
                               [("mods", Dir [("mod.jar", File [])])])
           [("config", Dir [("a.cfg", File [x41])])]
           [("mods", Dir [("mod.jar", File [])])]
           ["config"; "a.cfg"] [x41])
    with (r := Ok tt).
  - vm_compute. reflexivity.
  - vm_compute. reflexivity.
  - vm_compute. reflexivity.
  - vm_compute. reflexivity.
  - vm_compute. reflexivity.
  - discriminate.
  - discriminate.
  - vm_compute. reflexivity.
Defined.

(** X15.  What the overrides do not name is left alone: an installed file
    below a top-level name that no entry of the overrides directory has
    keeps its content, however [copyOverrides] ends; the exception is the
    place of the manifest copy. *)
Theorem copyOverrides_keeps_other_files
    (P : Platform) (modpack : Path) (w : World) (overrides : dir)
    (c : string) (p : list string) (y : bytes) :
  let install := abs P (installDir_of P modpack) in
  FS.lookup (fs w) (abs P (overrides_of P modpack)) = Some (Dir overrides) ->
  existsb (String.eqb c) (FS.names overrides) = false ->
  FS.lookup (fs w) (install ++ c :: p) = Some (File y) ->
  c :: p <> ["modrinth.index.json"] ->
  c :: p <> ["modrinth.index.json"; "modrinth.index.json"] ->
  forall r w',
    copyOverrides P modpack w = (r, w') ->
    FS.lookup (fs w') (install ++ c :: p) = Some (File y).
Proof.
  intros install Hov Hc Hy Hp1 Hp2.
  assert (c :: p <> []) as Hne by discriminate.
  destruct (install_file_inv _ _ _ _ Hne Hy) as (t & Hinst & Ht).
  eapply copyOverrides_file_after; eauto.
  cbn [Shutil.copytree].
  rewrite lookup_step, (copy_entries_frame _ _ _ _ Hc), <- lookup_step. exact Ht.
Qed.

Lemma copyOverrides_keeps_other_files_witness :
  let w := Demo.overlay_world [("config", Dir [("a.cfg", File [x41])])]
                              [("mods", Dir [("mod.jar", File [])])] in
  let w' := snd (copyOverrides Demo.platform Demo.modpack w) in
  FS.lookup (fs w') (abs Demo.platform (installDir_of Demo.platform Demo.modpack)
                     ++ "mods" :: ["mod.jar"])
  = Some (File []).
Proof.
  apply (copyOverrides_keeps_other_files Demo.platform Demo.modpack
           (Demo.overlay_world [("config", Dir [("a.cfg", File [x41])])]
                               [("mods", Dir [("mod.jar", File [])])])
           [("config", Dir [("a.cfg", File [x41])])] "mods" ["mod.jar"] [])
    with (r := Ok tt).
  - vm_compute. reflexivity.
  - vm_compute. reflexivity.
  - vm_compute. reflexivity.
  - discriminate.
  - discriminate.
  - vm_compute. reflexivity.
Defined.

(** X16.  An override directory does not replace an installed file: when
    the overrides directory has a directory under a top-level name that is
    a file in the install tree, [copyOverrides] stops with [OverlayFailed]
    (the manifest is not copied), and the installed file is still there. *)
Theorem copyOverrides_directory_over_file
    (P : Platform) (modpack : Path) (w : World) (overrides sub : dir)
    (k : string) (y : bytes) :
  let install := abs P (installDir_of P modpack) in
  FS.lookup (fs w) (abs P (overrides_of P modpack)) = Some (Dir overrides) ->
  FS.wf_node (Dir overrides) = true ->
  FS.alookup k overrides = Some (Dir sub) ->
  FS.lookup (fs w) (install ++ [k]) = Some (File y) ->
  exists w',
    copyOverrides P modpack w = (Stop (SysExit OverlayFailed), w')
    /\ FS.lookup (fs w') (install ++ [k]) = Some (File y).
Proof.
  intros install Hov Hwf Hk Hy.
  assert ([k] <> []) as Hne by discriminate.
  destruct (install_file_inv _ _ _ _ Hne Hy) as (t & Hinst & Ht).
  assert (FS.alookup k t = Some (File y)) as Hkt.
  { rewrite lookup_step in Ht. destruct (FS.alookup k t) as [[z|t0]|]; try discriminate.
    exact Ht. }
  destruct (copy_entries_conflict _ _ _ _ _ Hwf Hk Hkt) as [Herr Hkeep].
  rewrite copyOverrides_present by (unfold FS.exists_; now rewrite Hov).
  unfold bind, try_copytree. cbn [fs out].
  unfold Shutil.copytree_at. fold install.
  rewrite Hov, (mkdir_existing _ _ _ Hinst), Hinst. cbn [Shutil.copytree].
  destruct (Shutil.copy_entries Shutil.copytree overrides t) as [t' errs].
  cbn [fst snd] in *. destruct errs as [|e errs]; [congruence|].
  eexists. split; [reflexivity|]. cbn [fs].
  rewrite (set_dir_lookup _ _ _ _ _ Hinst), lookup_step, Hkeep. reflexivity.
Qed.

Lemma copyOverrides_directory_over_file_witness :
  let w := Demo.overlay_world [("mods", Dir [("a.jar", File [x41])])]
                              [("mods", File [x42])] in
  exists w',
    copyOverrides Demo.platform Demo.modpack w = (Stop (SysExit OverlayFailed), w')
    /\ FS.lookup (fs w') (abs Demo.platform (installDir_of Demo.platform Demo.modpack)
                          ++ ["mods"])
       = Some (File [x42]).
Proof.
  apply (copyOverrides_directory_over_file Demo.platform Demo.modpack
           (Demo.overlay_world [("mods", Dir [("a.jar", File [x41])])]
                               [("mods", File [x42])])
           [("mods", Dir [("a.jar", File [x41])])] [("a.jar", File [x41])] "mods" [x42]).
  - vm_compute. reflexivity.
  - vm_compute. reflexivity.
  - vm_compute. reflexivity.
  - vm_compute. reflexivity.
Defined.

(** ** What the overlay keeps *)

Section OverlayKeeps.
Import FS Shutil.

Lemma copytree_keeps_at q :
  forall src dst n,
    lookup dst q = Some n ->
    exists n', lookup (fst (copytree src dst)) q = Some n' /\ kind n' = kind n.
Proof.
  induction q as [|k q IHq]; intros src dst n Hn.
  - injection Hn as <-. eexists. split; reflexivity.
  - destruct src as [x|entries]; [cbn; eauto|]. cbn [copytree].
    revert dst n Hn.
    induction entries as [|[name s] rest IHes]; intros dst n Hn; [cbn; eauto|].
    rewrite copy_entries_cons.
    assert (exists n1,
               lookup (fst (copy_entry copytree name s dst)) (k :: q) = Some n1
               /\ kind n1 = kind n) as (n1 & Hn1 & K1).
    { unfold copy_entry. destruct s as [data|sub].
      - unfold copy_file.
        destruct (write dst _ data) as [e|dst'] eqn:Hw; cbn [fst]; [eauto|].
        eapply write_keeps; eauto.
      - destruct (alookup name dst) as [[z|t]|] eqn:Em; [cbn; eauto | |].
        + destruct (copytree (Dir sub) t) as [t' errs] eqn:Ec. cbn [fst].
          rewrite lookup_step in Hn. rewrite lookup_step.
          destruct (String.eqb_spec k name) as [->|Hne].
          * rewrite alookup_ainsert_eq. rewrite Em in Hn. cbn [below] in *.
            destruct (IHq (Dir sub) t n Hn) as (n' & Hn' & K).
            rewrite Ec in Hn'. eauto.
          * rewrite (alookup_ainsert_ne _ _ _ _ Hne).
            destruct (alookup k dst); [eauto | discriminate].
        + destruct (copytree (Dir sub) []) as [t' errs]. cbn [fst].
          rewrite lookup_step in Hn. rewrite lookup_step.
          destruct (String.eqb_spec k name) as [->|Hne];
            [rewrite Em in Hn; discriminate|].
          rewrite (alookup_ainsert_ne _ _ _ _ Hne).
          destruct (alookup k dst); [eauto | discriminate]. }
    destruct (copy_entry copytree name s dst) as [dst1 errs1]. cbn [fst] in Hn1.
    destruct (IHes dst1 n1 Hn1) as (n2 & Hn2 & K2).
    destruct (copy_entries copytree rest dst1) as [dst2 errs2]. cbn [fst] in *.
    exists n2. split; congruence.
Qed.

Lemma copytree_keeps src dst : keeps dst (fst (copytree src dst)).
Proof. intros q n H. now apply copytree_keeps_at. Qed.

Lemma set_dir_keeps d p t t' :
  lookup d p = Some (Dir t) -> keeps t t' -> keeps d (set_dir d p t').
Proof.
  revert d. induction p as [|c p IH]; intros d H Hk.
  - injection H as <-. exact Hk.
  - rewrite lookup_cons in H. cbn [set_dir].
    destruct (alookup c d) as [[x|d']|] eqn:E; try discriminate.
    + now destruct p.
    + apply keeps_ainsert. intros old Hold. rewrite E in Hold. injection Hold as <-.
      split; [reflexivity|]. apply (IH _ H Hk).
Qed.

Lemma copytree_at_keeps d src dst : keeps d (fst (copytree_at d src dst)).
Proof.
  unfold copytree_at.
  destruct (lookup d src) as [[x|entries]|]; try apply keeps_refl.
  destruct (mkdir true d dst) as [e|d1] eqn:Hmk; [apply keeps_refl|].
  pose proof (mkdir_keeps _ _ _ _ Hmk) as Hk1.
  destruct (lookup d1 dst) as [[x|t]|] eqn:E; try exact Hk1.
  pose proof (copytree_keeps (Dir entries) t) as Hk2.
  destruct (copytree (Dir entries) t) as [t' errs]. cbn [fst] in *.
  eapply keeps_trans; [exact Hk1|]. eapply set_dir_keeps; eauto.
Qed.

End OverlayKeeps.

Section OverlayRunKeeps.
Context (P : Platform).

Lemma shutil_copy_keeps src dst w r w' :
  shutil_copy P src dst w = (r, w') -> keeps (fs w) (fs w').
Proof.
  unfold shutil_copy, bind, get_fs, lift, ret, raise, put_fs.
  destruct (FS.read (fs w) _) as [e|data]; [intros [= _ <-]; apply keeps_refl|].
  unfold FS.copy_file.
  destruct (FS.write (fs w) _ data) as [e|d'] eqn:Hw;
    intros [= _ <-]; [apply keeps_refl|].
  cbn [fs]. eapply write_keeps, Hw.
Qed.

Lemma try_copytree_keeps src dst w r w' :
  try_copytree P src dst w = (r, w') -> keeps (fs w) (fs w').
Proof.
  unfold try_copytree.
  pose proof (copytree_at_keeps (fs w) (abs P src) (abs P dst)) as Hk.
  destruct (Shutil.copytree_at (fs w) (abs P src) (abs P dst)) as [d' errs].
  destruct errs; unfold die; intros [= _ <-]; exact Hk.
Qed.

Lemma copyOverrides_keeps modpack w r w' :
  copyOverrides P modpack w = (r, w') -> keeps (fs w) (fs w').
Proof.
  destruct (FS.exists_ (fs w) (abs P (overrides_of P modpack))) eqn:Hex.
  - rewrite (copyOverrides_present P _ _ Hex). unfold bind.
    destruct (try_copytree P _ _ _) as [[[]|h] w1] eqn:E1.
    + intros H. eapply keeps_trans; [|eapply shutil_copy_keeps, H].
      apply (try_copytree_keeps _ _ _ _ _ E1).
    + intros [= _ <-]. apply (try_copytree_keeps _ _ _ _ _ E1).
  - rewrite (copyOverrides_absent P _ _ Hex). intros [= _ <-]. apply keeps_refl.
Qed.

End OverlayRunKeeps.

(** X17.  [copyOverrides] never deletes: whatever its outcome, every file
    and directory of the file system it started from is still there, a
    directory as a directory and a file as a file (a file may have a new
    content). *)
Theorem copyOverrides_never_deletes (P : Platform) (modpack : Path) (w : World) :
  keeps (fs w) (fs (snd (copyOverrides P modpack w))).
Proof.
  destruct (copyOverrides P modpack w) as [r w'] eqn:E.
  apply (copyOverrides_keeps P _ _ _ _ E).
Qed.

(** ** The copy of the manifest, and the whole run *)

Section ManifestCopy.
Context (P : Platform).

Lemma pack_path modpack :
  abs P (modpack_dir_of P modpack) = abs P (cwd P // stem modpack) ++ ["pack"].
Proof.
  unfold modpack_dir_of. apply abs_join; [|reflexivity].
  apply joinpath_anchored. reflexivity.
Qed.

Lemma install_path modpack :
  abs P (installDir_of P modpack) = abs P (cwd P // stem modpack) ++ ["install"].
Proof.
  unfold installDir_of. apply abs_join; [|reflexivity].
  apply joinpath_anchored. reflexivity.
Qed.

Lemma shutil_copy_inv src dst w w' :
  shutil_copy P src dst w = (Ok tt, w') ->
  exists data,
    FS.read (fs w) (abs P src) = inr data
    /\ FS.write (fs w)
         (if FS.is_dir (fs w) (abs P dst) then abs P dst ++ [name src] else abs P dst)
         data = inr (fs w').
Proof.
  unfold shutil_copy, bind, get_fs, lift, ret, raise, put_fs, FS.copy_file.
  destruct (FS.read (fs w) (abs P src)) as [e|data]; [discriminate|].
  destruct (FS.write (fs w) _ data) as [e|d'] eqn:Hw; [discriminate|].
  intros [= <-]. exists data. split; [reflexivity | exact Hw].
Qed.

Lemma copyOverrides_ok_manifest modpack w w' :
  let pack := abs P (modpack_dir_of P modpack) in
  let install := abs P (installDir_of P modpack) in
  copyOverrides P modpack w = (Ok tt, w') ->
  FS.exists_ (fs w) (abs P (overrides_of P modpack)) = true ->
  exists data,
    FS.read (fs w') (pack ++ ["modrinth.index.json"]) = inr data
    /\ (FS.read (fs w') (install ++ ["modrinth.index.json"]) = inr data
        \/ FS.read (fs w')
             (install ++ ["modrinth.index.json"; "modrinth.index.json"]) = inr data).
Proof.
  intros pack install Hrun Hex.
  rewrite (copyOverrides_present P _ _ Hex) in Hrun.
  apply bind_inv_ok in Hrun. destruct Hrun as ([] & w1 & _ & Hcopy).
  apply shutil_copy_inv in Hcopy. destruct Hcopy as (data & Hread & Hwrite).
  change (cwd P // stem modpack // "pack") with (modpack_dir_of P modpack) in *.
  rewrite index_path in Hread. fold pack in Hread.
  rewrite name_join in Hwrite by reflexivity.
  rewrite abs_join in Hwrite by (reflexivity || apply installDir_anchored).
  fold install in Hwrite.
  exists data. split.
  - unfold FS.read in *.
    destruct (FS.lookup (fs w1) (pack ++ ["modrinth.index.json"])) as [[x|t]|] eqn:E;
      try discriminate.
    injection Hread as ->.
    erewrite write_other; [reflexivity | exact Hwrite | exact E |].
    unfold pack, install.
    destruct (FS.is_dir (fs w1) _); rewrite pack_path, install_path, <- !app_assoc;
      intros H; apply app_inv_head in H; discriminate.
  - pose proof (write_read _ _ _ _ Hwrite) as Hq. unfold FS.read.
    destruct (FS.is_dir (fs w1) (install ++ ["modrinth.index.json"])).
    + right. rewrite <- app_assoc in Hq. cbn [app] in Hq. now rewrite Hq.
    + left. now rewrite Hq.
Qed.

End ManifestCopy.

(** X18.  When there is an overrides directory and [copyOverrides] ends
    well, the install root holds a copy of the pack's manifest: the
    content of [pack/modrinth.index.json] is that of
    [install/modrinth.index.json], or of the file of that name inside it
    when [install/modrinth.index.json] is a directory. *)
Theorem copyOverrides_copies_manifest
    (P : Platform) (modpack : Path) (w w' : World) :
  let pack := abs P (modpack_dir_of P modpack) in
  let install := abs P (installDir_of P modpack) in
  copyOverrides P modpack w = (Ok tt, w') ->
  FS.exists_ (fs w) (abs P (overrides_of P modpack)) = true ->
  exists data,
    FS.read (fs w') (pack ++ ["modrinth.index.json"]) = inr data
    /\ (FS.read (fs w') (install ++ ["modrinth.index.json"]) = inr data
        \/ FS.read (fs w')
             (install ++ ["modrinth.index.json"; "modrinth.index.json"]) = inr data).
Proof. apply copyOverrides_ok_manifest. Qed.

Lemma copyOverrides_copies_manifest_witness :
  let w := Demo.overlay_world [("config", Dir [("a.cfg", File [x41])])] [] in
  let w' := snd (copyOverrides Demo.platform Demo.modpack w) in
  let pack := abs Demo.platform (modpack_dir_of Demo.platform Demo.modpack) in
  let install := abs Demo.platform (installDir_of Demo.platform Demo.modpack) in
  exists data,
    FS.read (fs w') (pack ++ ["modrinth.index.json"]) = inr data
    /\ (FS.read (fs w') (install ++ ["modrinth.index.json"]) = inr data
        \/ FS.read (fs w')
             (install ++ ["modrinth.index.json"; "modrinth.index.json"]) = inr data).
Proof.
  apply (copyOverrides_copies_manifest Demo.platform Demo.modpack
           (Demo.overlay_world [("config", Dir [("a.cfg", File [x41])])] [])).
  - vm_compute. reflexivity.
  - vm_compute. reflexivity.
Defined.

(** X19.  A run of [main] that ends well has installed the whole manifest:
    the loader returned a version-1 manifest, the resolver made one
    resource of each of its entries, each with a netloc of the allow-list,
    and at the end of the run the destination of every resource exists;
    the last thing printed is [Done!]. *)
Theorem main_success_installs_everything
    (P : Platform) (user : string) (w w' : World) :
  let modpack := modpack_of_input user in
  main P user w = (Ok tt, w') ->
  exists w0 w1 w2 m rs,
    startup P w = (Ok tt, w0)
    /\ loadModpack P modpack w0 = (Ok m, w1)
    /\ getMods P m w1 = (Ok rs, w2)
    /\ formatVersion m = 1%Z
    /\ Forall2 resolves_to (files m) rs
    /\ Forall (fun r => exists n, Url.netloc P (r_url r) = inr n
                                  /\ In n ACCEPTED_DOMAINS) rs
    /\ Forall (fun r => FS.exists_ (fs w') (dest P modpack r) = true) rs
    /\ exists evs, out w' = evs ++ [Say Done].
Proof.
  intros modpack. rewrite main_unfold. fold modpack. intros H.
  apply bind_inv_ok in H. destruct H as ([] & w0 & Hstart & H).
  apply bind_inv_ok in H. destruct H as (m & w1 & Hload & H).
  apply bind_inv_ok in H. destruct H as (rs & w2 & Hres & H).
  apply bind_inv_ok in H. destruct H as ([] & w3 & Hdl & H).
  apply bind_inv_ok in H. destruct H as ([] & w4 & Hov & H).
  injection H as <-.
  exists w0, w1, w2, m, rs.
  split; [exact Hstart|]. split; [exact Hload|]. split; [exact Hres|].
  split; [apply (loadModpack_inv _ _ _ _ _ Hload)|].
  destruct (getMods_loop_inv P _ _ _ _ _ Hres) as (new & -> & Hall & Hacc).
  split; [exact Hall|]. split; [exact Hacc|]. split; [|cbn [out]; eauto].
  cbn [fs]. eapply Forall_impl; [apply (downloadMods_ok_dests P _ _ _ _ Hdl)|].
  intros r Hr. eapply keeps_exists; [apply (copyOverrides_keeps P _ _ _ _ Hov)|exact Hr].
Qed.

Lemma main_success_installs_everything_witness :
  let modpack := modpack_of_input " 'Pack.zip' " in
  let w' := snd (main Demo.platform " 'Pack.zip' " (Demo.world "PK1")) in
  exists w0 w1 w2 m rs,
    startup Demo.platform (Demo.world "PK1") = (Ok tt, w0)
    /\ loadModpack Demo.platform modpack w0 = (Ok m, w1)
    /\ getMods Demo.platform m w1 = (Ok rs, w2)
    /\ formatVersion m = 1%Z
    /\ Forall2 resolves_to (files m) rs
    /\ Forall (fun r => exists n, Url.netloc Demo.platform (r_url r) = inr n
                                  /\ In n ACCEPTED_DOMAINS) rs
    /\ Forall (fun r => FS.exists_ (fs w') (dest Demo.platform modpack r) = true) rs
    /\ exists evs, out w' = evs ++ [Say Done].
Proof.
  apply (main_success_installs_everything Demo.platform " 'Pack.zip' "
           (Demo.world "PK1")).
  vm_compute. reflexivity.
Defined.

(** X20.  The destination is not confined to the install tree: for a
    resource whose path is absolute, [installDir / path] is that path.
    Its parent directories are made there, and when the path does not
    exist then and the run through the resource ends well, the verified
    bytes are written there, wherever the install directory is. *)
Theorem downloadMods_absolute_path
    (P : Platform) (modpack : Path) (pre : ResourceList) (r : Resource)
    (w w1 w2 : World) (d1 : dir) :
  let file := parts (Path_of (r_path r)) in
  anchored (Path_of (r_path r)) = true ->
  downloadMods P modpack pre w = (Ok tt, w1) ->
  FS.mkdir true (fs w1) (removelast file) = inr d1 ->
  FS.exists_ d1 file = false ->
  downloadMods P modpack (pre ++ [r]) w = (Ok tt, w2) ->
  dest P modpack r = file
  /\ exists data,
       FS.write d1 file data = inr (fs w2)
       /\ FS.read (fs w2) file = inr data
       /\ SHA1.hexdigest data = r_hash r.
Proof.
  intros file Habs Hpre Hmk Hnew Hrun.
  assert (abs P (installDir_of P modpack // r_path r) = file) as Hfile.
  { unfold abs, joinpath. cbv zeta. now rewrite !Habs. }
  split; [exact Hfile|].
  rewrite (downloadMods_app P _ _ _ _ _ Hpre), for_each_one in Hrun.
  destruct (body_cases P _ r _ _ _ Hrun) as [_ Hok].
  destruct (Hok eq_refl) as (d & Hmk' & _ & Hcase).
  rewrite abs_parent in Hmk' by apply joinpath_anchored, installDir_anchored.
  rewrite Hfile in Hmk', Hcase. fold file in Hmk'.
  rewrite Hmk in Hmk'. injection Hmk' as <-.
  destruct Hcase as [[Hex _]|[_ (data & _ & Hdig & _ & Hw & Hr & _)]];
    [congruence|].
  exists data. auto.
Qed.

Lemma downloadMods_absolute_path_witness :
  let r := {| r_url := Demo.good_url; r_path := "/tmp/x.jar";
              r_hash := Demo.sha1_of_nothing |} in
  let w2 := snd (downloadMods Demo.platform Demo.modpack ([] ++ [r]) Demo.empty_world) in
  let d1 := Demo.tree [] ++ [("tmp", Dir [])] in
  dest Demo.platform Demo.modpack r = ["tmp"; "x.jar"]
  /\ exists data,
       FS.write d1 ["tmp"; "x.jar"] data = inr (fs w2)
       /\ FS.read (fs w2) ["tmp"; "x.jar"] = inr data
       /\ SHA1.hexdigest data = r_hash r.
Proof.
  apply (downloadMods_absolute_path Demo.platform Demo.modpack []
           {| r_url := Demo.good_url; r_path := "/tmp/x.jar";
              r_hash := Demo.sha1_of_nothing |}
           Demo.empty_world {| fs := Demo.tree []; out := [] |}
           (snd (downloadMods Demo.platform Demo.modpack
                   ([] ++ [{| r_url := Demo.good_url; r_path := "/tmp/x.jar";
                              r_hash := Demo.sha1_of_nothing |}]) Demo.empty_world))
           (Demo.tree [] ++ [("tmp", Dir [])])).
  - vm_compute. reflexivity.
  - vm_compute. reflexivity.
  - vm_compute. reflexivity.
  - vm_compute. reflexivity.
  - vm_compute. reflexivity.
Defined.
